(** * GlobalSwap interface: swap callback and access-list utilities

    A shallow embedding of [src/utils/index.ts] and of the swap callback hook
    ([useSwapCallArguments], [useSwapCallback]) together with the properties
    the specification states about them.

    Conventions of the embedding.
    - A JavaScript [number] is an integer [Z]; the places where the libraries
      reject a number outside the safe range are written out.
    - [BigNumber] (ethers) and [JSBI] values are unbounded integers [Z];
      their division truncates toward zero ([Z.quot]).
    - A function that can throw returns [result]; a rejected promise is the
      same [Throw].
    - [console.log] and friends are not modelled. *)

From Stdlib Require Import ZArith NArith List String Ascii Bool Lia.
From Stdlib Require Import Strings.Byte.
From stdpp Require Import base option gmap strings.

Import ListNotations.
Local Open Scope Z_scope.

(** ** Thrown errors *)

Inductive result (A : Type) : Type :=
| Ok (a : A)
| Throw (message : string).
Arguments Ok {A} a.
Arguments Throw {A} message.

Definition rbind {A B} (r : result A) (k : A -> result B) : result B :=
  match r with
  | Ok a => k a
  | Throw m => Throw m
  end.

Notation "'let*' x ':=' r 'in' k" := (rbind r (fun x => k))
  (at level 10, x name, r at level 100, k at level 200).

Definition is_ok {A} (r : result A) : bool :=
  match r with Ok _ => true | Throw _ => false end.

(** ** Bytes and hexadecimal text *)

Module Hex.

Definition digit (n : N) : ascii :=
  match n with
  | 0 => "0" | 1 => "1" | 2 => "2" | 3 => "3" | 4 => "4" | 5 => "5"
  | 6 => "6" | 7 => "7" | 8 => "8" | 9 => "9" | 10 => "a" | 11 => "b"
  | 12 => "c" | 13 => "d" | 14 => "e" | _ => "f"
  end%N%char.

(** Value of a hexadecimal digit, either case. *)
Definition value (c : ascii) : option N :=
  let n := N_of_ascii c in
  if ((48 <=? n) && (n <=? 57))%N then Some (n - 48)%N
  else if ((97 <=? n) && (n <=? 102))%N then Some (n - 87)%N
  else if ((65 <=? n) && (n <=? 70))%N then Some (n - 55)%N
  else None.

Definition is_digit (c : ascii) : bool :=
  match value c with Some _ => true | None => false end.

Definition is_decimal (c : ascii) : bool :=
  let n := N_of_ascii c in ((48 <=? n) && (n <=? 57))%N.

Fixpoint all (p : ascii -> bool) (s : string) : bool :=
  match s with
  | EmptyString => true
  | String c s' => p c && all p s'
  end.

(** Big-endian value of a digit string in base [b], read left to right. *)
Fixpoint parse_from (b : N) (acc : N) (s : string) : option N :=
  match s with
  | EmptyString => Some acc
  | String c s' =>
      match value c with
      | Some d => if (d <? b)%N then parse_from b (b * acc + d)%N s' else None
      | None => None
      end
  end.

Definition parse (s : string) : option N := parse_from 16 0 s.
Definition parse_decimal (s : string) : option N := parse_from 10 0 s.

Definition of_byte (b : byte) : string :=
  let n := Byte.to_N b in
  String (digit (n / 16)) (String (digit (n mod 16)) EmptyString).

Fixpoint of_bytes (bs : list byte) : string :=
  match bs with
  | [] => EmptyString
  | b :: bs' => (of_byte b ++ of_bytes bs')%string
  end.

Definition byte_of_N (n : N) : byte :=
  match Byte.of_N (n mod 256) with Some b => b | None => x00 end.

(** Big-endian bytes of [n], exactly [len] of them (high bytes dropped). *)
Fixpoint be_bytes (len : nat) (n : N) : list byte :=
  match len with
  | O => []
  | S len' => be_bytes len' (n / 256) ++ [byte_of_N n]
  end.

Fixpoint be_value_from (acc : N) (bs : list byte) : N :=
  match bs with
  | [] => acc
  | b :: bs' => be_value_from (256 * acc + Byte.to_N b)%N bs'
  end.
Definition be_value (bs : list byte) : N := be_value_from 0 bs.

(** Bytes of an even-length digit string. *)
Fixpoint to_bytes (s : string) : option (list byte) :=
  match s with
  | EmptyString => Some []
  | String c1 (String c2 s') =>
      match value c1, value c2, to_bytes s' with
      | Some h, Some l, Some bs => Some (byte_of_N (16 * h + l) :: bs)
      | _, _, _ => None
      end
  | String _ EmptyString => None
  end.

(** Number of bytes needed for [n] (at least one). *)
Definition byte_length (n : N) : nat :=
  Nat.max 1 (N.to_nat ((N.size n + 7) / 8)).

End Hex.

(** ** Keccak-256 *)

Module Keccak.

Local Open Scope N_scope.

Definition mask64 : N := 0xFFFFFFFFFFFFFFFF.

Definition rot (v : N) (n : N) : N :=
  N.land (N.lor (N.shiftl v n) (N.shiftr v (64 - n))) mask64.

Definition lane (st : list N) (x y : nat) : N :=
  nth (x mod 5 + 5 * (y mod 5))%nat st 0.

Definition offsets : list N :=
  [ 0;  1; 62; 28; 27;
   36; 44;  6; 55; 20;
    3; 10; 43; 25; 39;
   41; 45; 15; 21;  8;
   18;  2; 61; 56; 14].

Definition round_constants : list N :=
  [0x0000000000000001; 0x0000000000008082; 0x800000000000808A;
   0x8000000080008000; 0x000000000000808B; 0x0000000080000001;
   0x8000000080008081; 0x8000000000008009; 0x000000000000008A;
   0x0000000000000088; 0x0000000080008009; 0x000000008000000A;
   0x000000008000808B; 0x800000000000008B; 0x8000000000008089;
   0x8000000000008003; 0x8000000000008002; 0x8000000000000080;
   0x000000000000800A; 0x800000008000000A; 0x8000000080008081;
   0x8000000000008080; 0x0000000080000001; 0x8000000080008008].

Definition coords : list (nat * nat) :=
  map (fun i => (i mod 5, i / 5)%nat) (seq 0 25).

Definition theta (st : list N) : list N :=
  let c x := fold_left N.lxor (map (lane st x) (seq 0 5)) 0 in
  let d x := N.lxor (c (x + 4)%nat) (rot (c (x + 1)%nat) 1) in
  map (fun '(x, y) => N.lxor (lane st x y) (d x)) coords.

Definition rho_pi (st : list N) : list N :=
  map (fun '(x, y) =>
         let sx := ((x + 3 * y) mod 5)%nat in
         rot (lane st sx x) (nth (sx + 5 * x)%nat offsets 0)) coords.

Definition chi (st : list N) : list N :=
  map (fun '(x, y) =>
         N.lxor (lane st x y)
           (N.land (N.lxor (lane st (x + 1) y) mask64) (lane st (x + 2) y)))
      coords.

Definition iota (rc : N) (st : list N) : list N :=
  match st with
  | [] => []
  | a :: st' => N.lxor a rc :: st'
  end.

Definition round (st : list N) (rc : N) : list N :=
  iota rc (chi (rho_pi (theta st))).

Definition permute (st : list N) : list N :=
  fold_left round round_constants st.

Definition rate : nat := 136.

Fixpoint le_value (bs : list byte) : N :=
  match bs with
  | [] => 0
  | b :: bs' => Byte.to_N b + 256 * le_value bs'
  end.

Fixpoint le_bytes (len : nat) (n : N) : list byte :=
  match len with
  | O => []
  | S len' => Hex.byte_of_N n :: le_bytes len' (n / 256)
  end.

Fixpoint lanes_of (count : nat) (bs : list byte) : list N :=
  match count with
  | O => []
  | S count' => le_value (firstn 8 bs) :: lanes_of count' (skipn 8 bs)
  end.

Fixpoint xor_into (st block : list N) : list N :=
  match st, block with
  | a :: st', b :: block' => N.lxor a b :: xor_into st' block'
  | _, _ => st
  end.

(** Multi-rate padding of the original Keccak submission: 0x01 ... 0x80. *)
Definition pad (msg : list byte) : list byte :=
  let fill := (rate - 1 - (List.length msg mod rate))%nat in
  match fill with
  | O => msg ++ [x81]
  | S k => msg ++ [x01] ++ repeat x00 k ++ [x80]
  end.

Fixpoint absorb (blocks : nat) (st : list N) (bs : list byte) : list N :=
  match blocks with
  | O => st
  | S blocks' =>
      absorb blocks' (permute (xor_into st (lanes_of 17 (firstn rate bs))))
        (skipn rate bs)
  end.

Definition keccak256 (msg : list byte) : list byte :=
  let padded := pad msg in
  let st := absorb (List.length padded / rate) (repeat 0 25) padded in
  concat (map (le_bytes 8) (firstn 4 st)).

End Keccak.

(** ** JavaScript values and string primitives *)

Module JS.

Local Open Scope string_scope.

(** A value that is a string, [null] or [undefined]. *)
Inductive value : Type :=
| Undefined
| Null
| Str (s : string).

(** Truthiness of a string: only the empty string is falsy. *)
Definition truthy (s : string) : bool :=
  match s with EmptyString => false | String _ _ => true end.

(** [`${v}`] inside a template literal. *)
Definition template (v : value) : string :=
  match v with
  | Undefined => "undefined"
  | Null => "null"
  | Str s => s
  end.

(** [s.substr(n)]: the text from position [n] on. *)
Fixpoint substr (n : nat) (s : string) : string :=
  match n, s with
  | O, _ => s
  | S n', String _ s' => substr n' s'
  | S _, EmptyString => EmptyString
  end.

(** ['c'.repeat(n)] *)
Fixpoint repeat_char (c : ascii) (n : nat) : string :=
  match n with
  | O => EmptyString
  | S n' => String c (repeat_char c n')
  end.

(** [s.startsWith(p)] *)
Fixpoint startsWith (p s : string) : bool :=
  match p, s with
  | EmptyString, _ => true
  | String a p', String b s' => Ascii.eqb a b && startsWith p' s'
  | String _ _, EmptyString => false
  end.

(** [s.split(pat).join('')] for a non-empty [pat]: every occurrence of
    [pat], found left to right without overlap, is removed.  [skip] counts
    the characters of the current occurrence still to drop. *)
Fixpoint remove_from (pat : string) (skip : nat) (s : string) : string :=
  match s with
  | EmptyString => EmptyString
  | String c s' =>
      match skip with
      | S k => remove_from pat k s'
      | O =>
          if startsWith pat s
          then remove_from pat (String.length pat - 1) s'
          else String c (remove_from pat 0 s')
      end
  end.

Definition split_join (pat s : string) : string := remove_from pat 0 s.

(** [a < b] on strings: lexicographic on character codes. *)
Definition lt (a b : string) : bool := String.ltb a b.

Definition lower_char (c : ascii) : ascii :=
  let n := N_of_ascii c in
  if ((65 <=? n) && (n <=? 90))%N then ascii_of_N (n + 32) else c.

Fixpoint toLowerCase (s : string) : string :=
  match s with
  | EmptyString => EmptyString
  | String c s' => String (lower_char c) (toLowerCase s')
  end.

Definition strip_prefix (p s : string) : option string :=
  if startsWith p s then Some (substr (String.length p) s) else None.

(** The first [n] characters of [s]. *)
Fixpoint take (n : nat) (s : string) : string :=
  match n, s with
  | S n', String c s' => String c (take n' s')
  | _, _ => EmptyString
  end.

(** An index argument of [substring], brought into [0 .. length]. *)
Definition clamp (len : nat) (i : Z) : nat :=
  Z.to_nat (Z.max 0 (Z.min i (Z.of_nat len))).

(** [s.substring(start, end)]: both indexes are clamped, and swapped when
    [start] is the larger. *)
Definition substring (s : string) (start end_ : Z) : string :=
  let a := clamp (String.length s) start in
  let b := clamp (String.length s) end_ in
  take (Nat.max a b - Nat.min a b) (substr (Nat.min a b) s).

(** [s.substring(start)] *)
Definition substring_from (s : string) (start : Z) : string :=
  substring s start (Z.of_nat (String.length s)).

(** Whether [c] is one of the characters of [set]. *)
Fixpoint char_in (c : ascii) (set : string) : bool :=
  match set with
  | EmptyString => false
  | String d set' => Ascii.eqb c d || char_in c set'
  end.

Definition backslash : ascii := "092"%char.

(** *** Numbers

    A JavaScript number is NaN, an infinity, or a real value [num / den].
    Sums and differences are exact; the rounding of IEEE 754 is not
    modelled (a sum of two doubles is exact whenever it is a double, as
    for every integer below 2^53 and for the halves the development
    evaluates). *)
Inductive number : Type :=
| NaN
| Infinity (negative : bool)
| Real (num : Z) (den : positive).

(** An integer as a number. *)
Definition number_of_Z (n : Z) : number := Real n 1.

(** [a < b]: false when either side is NaN. *)
Definition number_lt (a b : number) : bool :=
  match a, b with
  | NaN, _ => false
  | _, NaN => false
  | Infinity s, Infinity t => s && negb t
  | Infinity s, Real _ _ => s
  | Real _ _, Infinity t => negb t
  | Real a b, Real c d => (a * Zpos d <? c * Zpos b)%Z
  end.

Definition number_opp (a : number) : number :=
  match a with
  | NaN => NaN
  | Infinity s => Infinity (negb s)
  | Real a b => Real (- a) b
  end.

(** [a + b] *)
Definition number_add (a b : number) : number :=
  match a, b with
  | NaN, _ => NaN
  | _, NaN => NaN
  | Infinity s, Infinity t => if Bool.eqb s t then Infinity s else NaN
  | Infinity s, Real _ _ => Infinity s
  | Real _ _, Infinity t => Infinity t
  | Real a b, Real c d => Real (a * Zpos d + c * Zpos b) (b * d)
  end.

(** [a - b] *)
Definition number_sub (a b : number) : number := number_add a (number_opp b).

(** The integer a number is, when it is finite and has no fractional
    part. *)
Definition integer_value (a : number) : option Z :=
  match a with
  | Real a b =>
      if (a mod Zpos b =? 0)%Z then Some (a / Zpos b)%Z else None
  | _ => None
  end.

(** Decimal digits of a natural number. *)
Fixpoint decimal_from (fuel : nat) (n : N) (acc : string) : string :=
  match fuel with
  | O => acc
  | S fuel' =>
      let acc' := String (ascii_of_N (48 + n mod 10)) acc in
      if (n <? 10)%N then acc' else decimal_from fuel' (n / 10) acc'
  end.

Definition decimal (n : N) : string :=
  decimal_from (S (N.to_nat (N.log2 n))) n EmptyString.

(** The digits after the point of [r / d], for [r < d]. *)
Fixpoint fraction_digits (fuel : nat) (r d : N) : string :=
  match fuel with
  | O => EmptyString
  | S fuel' =>
      if (r =? 0)%N then EmptyString
      else String (ascii_of_N (48 + r * 10 / d))
             (fraction_digits fuel' (r * 10 mod d) d)
  end.

(** [`${x}`] for a number: its decimal expansion, which is what
    JavaScript prints for an integer below 10^21 and for a value with a
    short expansion such as 9999.5; the exponent forms and the
    expansions of more than 1100 digits are not modelled. *)
Definition number_toString (x : number) : string :=
  match x with
  | NaN => "NaN"
  | Infinity false => "Infinity"
  | Infinity true => "-Infinity"
  | Real a b =>
      let n := Z.abs_N a in
      let d := Npos b in
      (if (a <? 0)%Z && negb (n =? 0)%N then "-" else EmptyString) ++
      decimal (n / d) ++
      (if (n mod d =? 0)%N then EmptyString
       else "." ++ fraction_digits 1100 (n mod d) d)
  end.


End JS.

(** ** The hash function

    The chain hash is a parameter of the development: the theorems hold for
    any function from bytes to bytes put in its place.  [Keccak.keccak256]
    is the instance used to evaluate the definitions. *)

Class Hasher := keccak256 : list byte -> list byte.

Definition keccak_hasher : Hasher := Keccak.keccak256.

(** ** ethers: BigNumber and solidityKeccak256 *)

Module Ethers.

Local Open Scope string_scope.

(** [MAX_SAFE] of the BigNumber module: 2^53 - 1. *)
Definition MAX_SAFE : Z := 0x1fffffffffffff.

(** [BigNumber.from(n)] for a number [n] with no fractional part. *)
Definition BigNumber_from_number (n : Z) : result Z :=
  if ((MAX_SAFE <=? n) || (n <=? - MAX_SAFE))%Z
  then Throw "overflow" else Ok n.

(** [b.toNumber()] *)
Definition toNumber (b : Z) : result Z :=
  if (Z.abs b <=? MAX_SAFE)%Z then Ok b else Throw "overflow".

(** [BigNumber.from(s)] for a string: an optional minus sign followed by
    either [0x] and at least one hexadecimal digit, or at least one
    decimal digit; anything else throws.  (The prefix in upper case, [0X],
    which ethers lets through into a malformed value, throws here.) *)
Definition BigNumber_from_string (s : string) : result Z :=
  let '(sign, body) :=
    match s with
    | String "-"%char s' => (-1, s')
    | _ => (1, s)
    end in
  let magnitude :=
    match JS.strip_prefix "0x" body with
    | Some digits => if JS.truthy digits then Hex.parse digits else None
    | None => if JS.truthy body then Hex.parse_decimal body else None
    end in
  match magnitude with
  | Some n => Ok (sign * Z.of_N n)
  | None => Throw "invalid BigNumber string"
  end.

(** [BigNumber.from(v)] for a value that may be [null] or [undefined]. *)
Definition BigNumber_from (v : JS.value) : result Z :=
  match v with
  | JS.Str s => BigNumber_from_string s
  | _ => Throw "invalid BigNumber value"
  end.

(** [b.toHexString()]: [0x] and the bytes of [b], no more than needed. *)
Definition toHexString (b : Z) : string :=
  let n := Z.to_N (Z.abs b) in
  (if (b <? 0)%Z then "-" else EmptyString) ++
  "0x" ++ Hex.of_bytes (Hex.be_bytes (Hex.byte_length n) n).

(** [hexlify(bytes)] *)
Definition hexlify (bs : list byte) : string := "0x" ++ Hex.of_bytes bs.

(** [solidityPack] of one value of type [uint]: the value in two's
    complement on 256 bits, padded to 32 bytes; a value that does not fit
    throws. *)
Definition pack_uint (v : JS.value) : result (list byte) :=
  let* b := BigNumber_from v in
  if ((- 2 ^ 256 <? b) && (b <? 2 ^ 256))%Z
  then Ok (Hex.be_bytes 32 (Z.to_N (b mod 2 ^ 256)))
  else Throw "value out of range".

Fixpoint pack_uints (vs : list JS.value) : result (list byte) :=
  match vs with
  | [] => Ok []
  | v :: vs' =>
      let* b := pack_uint v in
      let* bs := pack_uints vs' in
      Ok (b ++ bs)%list
  end.

(** [ethers.utils.solidityKeccak256(['uint', ..., 'uint'], values)] *)
Definition solidityKeccak256 `{Hasher} (values : list JS.value)
  : result string :=
  let* packed := pack_uints values in
  Ok (hexlify (keccak256 packed)).

End Ethers.

(** ** web3: ABI encoding and soliditySha3

    The calls [getPair] makes into web3.  [None] stands for [null]. *)

Class Web3 := {
  (** [web3.eth.abi.encodeParameters(['address', 'address'], [a, b])] *)
  encodeParameters_address_address : string -> string -> result string;
  (** [web3.eth.abi.encodeParameters(['address', 'bytes32'], [a, salt])] *)
  encodeParameters_address_bytes32 : string -> option string -> result string;
  (** [web3.utils.soliditySha3(...args)] with the types detected *)
  soliditySha3 : list string -> result (option string)
}.

(** ** Constants of [src/constants]

    Their values are parameters of the development. *)

Record AmmAddresses := {
  wethAddress : string;
  wethCodeHash : string;
  daiAddress : string;
  daiCodeHash : string;
  codeHash : string
}.

Class Constants := {
  ROUTER_ADDRESS : string;
  FACTORY_ADDRESS : string;
  ammAddresses : AmmAddresses;
  INITIAL_ALLOWED_SLIPPAGE : Z;
  BIPS_BASE : Z
}.

(** ** [src/utils/index.ts] *)

Module Utils.

Local Open Scope string_scope.

(** *** The code-hash map *)

Abbreviation CodeHashMap := (gmap string string).

(** The module-level statements that fill [codeHashMap] at load time. *)
Definition codeHashMap `{Constants} : CodeHashMap :=
  let m : CodeHashMap := ∅ in
  let m := <[wethAddress ammAddresses := wethCodeHash ammAddresses]> m in
  let m := <[daiAddress ammAddresses := daiCodeHash ammAddresses]> m in
  m.

(** [codeHashMap.get(k)] *)
Definition map_get (m : CodeHashMap) (k : string) : JS.value :=
  match m !! k with
  | Some v => JS.Str v
  | None => JS.Undefined
  end.

(** [codeHashMap.has(k)] *)
Definition map_has (m : CodeHashMap) (k : string) : bool :=
  match m !! k with Some _ => true | None => false end.

(** [getContractCodeHash]: the value the promise resolves to and the map
    afterwards.  The branch of a missing key is empty in the source (its
    statements are commented out), so the function falls off its end. *)
Definition getContractCodeHash (m : CodeHashMap) (contractAddress : string)
  : JS.value * CodeHashMap :=
  if map_has m contractAddress
  then (map_get m contractAddress, m)
  else (JS.Undefined, m).

(** *** Addresses *)

(** [getChecksumAddress] of ethers: the digits in lower case, then each
    letter raised when its nibble of the hash of the text is 8 or more. *)
Fixpoint checksum_chars (digits : string) (nibbles : list N) : string :=
  match digits, nibbles with
  | String c s', n :: ns =>
      let c' := if (8 <=? n)%N
                then (let k := N_of_ascii c in
                      if ((97 <=? k) && (k <=? 122))%N
                      then ascii_of_N (k - 32) else c)
                else c in
      String c' (checksum_chars s' ns)
  | _, _ => digits
  end.

Definition nibbles (bs : list byte) : list N :=
  flat_map (fun b => let n := Byte.to_N b in [n / 16; n mod 16]%N) bs.

Definition getChecksumAddress `{Hasher} (digits : string) : string :=
  let lower := JS.toLowerCase digits in
  let hashed := keccak256 (list_byte_of_string lower) in
  "0x" ++ checksum_chars lower (nibbles hashed).

Definition has_upper_hex (s : string) : bool :=
  negb (Hex.all (fun c => let n := N_of_ascii c in
                          negb ((65 <=? n) && (n <=? 70))%N) s).
Definition has_lower_hex (s : string) : bool :=
  negb (Hex.all (fun c => let n := N_of_ascii c in
                          negb ((97 <=? n) && (n <=? 102))%N) s).

(** [getAddress] of ethers on a string: 40 hexadecimal digits with or
    without [0x]; a text of mixed case must carry the right checksum.
    (The ICAP form [XE..] is not modelled and throws here.) *)
Definition getAddress `{Hasher} (value : string) : result string :=
  let digits := match JS.strip_prefix "0x" value with
                | Some d => d
                | None => value
                end in
  if Hex.all Hex.is_digit digits && (String.length digits =? 40)%nat then
    let result := getChecksumAddress digits in
    if has_upper_hex digits && has_lower_hex digits
       && negb (String.eqb result ("0x" ++ digits))
    then Throw "bad address checksum"
    else Ok result
  else Throw "invalid address".

(** [isAddress]: the checksummed address, or [None] for [false]. *)
Definition isAddress `{Hasher} (value : string) : option string :=
  match getAddress value with
  | Ok a => Some a
  | Throw _ => None
  end.

Definition AddressZero : string := "0x0000000000000000000000000000000000000000".

(** *** Numbers *)

(** [calculateGasMargin]: add 10%. *)
Definition calculateGasMargin (value : Z) : Z :=
  Z.quot (value * (10000 + 1000)) 10000.

(** [JSBI.BigInt(x)] for a number: a [RangeError] unless [x] is an
    integer. *)
Definition JSBI_BigInt (x : JS.number) : result Z :=
  match JS.integer_value x with
  | Some n => Ok n
  | None =>
      Throw ("The number " ++ JS.number_toString x ++
             " cannot be converted to BigInt because it is not an integer")
  end.

(** [calculateSlippageAmount]; [raw] is [value.raw] and [slippage] is a
    number. *)
Definition calculateSlippageAmount (raw : Z) (slippage : JS.number)
  : result (Z * Z) :=
  if JS.number_lt slippage (JS.number_of_Z 0)
     || JS.number_lt (JS.number_of_Z 10000) slippage
  then Throw ("Unexpected slippage value: " ++ JS.number_toString slippage)
  else
    let* low :=
      JSBI_BigInt (JS.number_sub (JS.number_of_Z 10000) slippage) in
    let* high :=
      JSBI_BigInt (JS.number_add (JS.number_of_Z 10000) slippage) in
    Ok (Z.quot (raw * low) 10000, Z.quot (raw * high) 10000).

(** *** Contracts *)

Inductive Web3Provider : Type := provider (name : string).

Inductive ProviderOrSigner : Type :=
| UseProvider (library : Web3Provider)
| UseSigner (library : Web3Provider) (account : string).

Record Contract := {
  contract_address : string;
  contract_abi : string;
  contract_runner : ProviderOrSigner
}.

Definition getProviderOrSigner (library : Web3Provider)
  (account : option string) : ProviderOrSigner :=
  match account with
  | Some a => if JS.truthy a then UseSigner library a
              else UseProvider library
  | None => UseProvider library
  end.

Definition getContract `{Hasher} (address ABI : string)
  (library : Web3Provider) (account : option string) : result Contract :=
  match isAddress address with
  | Some _ =>
      if String.eqb address AddressZero
      then Throw "Invalid 'address' parameter"
      else Ok {| contract_address := address;
                 contract_abi := ABI;
                 contract_runner := getProviderOrSigner library account |}
  | None => Throw "Invalid 'address' parameter"
  end.

Definition getRouterContract `{Hasher} `{Constants} (_ : Z)
  (library : Web3Provider) (account : option string) : result Contract :=
  getContract ROUTER_ADDRESS "IUniswapV2Router02" library account.

(** *** Storage keys *)

Definition getNestedStorageKey `{Hasher} (key1 key2 slotOfMap : string)
  : result string :=
  let* firstLevelKey :=
    Ethers.solidityKeccak256 [JS.Str key1; JS.Str slotOfMap] in
  Ethers.solidityKeccak256 [JS.Str key2; JS.Str firstLevelKey].

Definition getArrayItemKey `{Hasher} (index : Z) (slotOfArray : string)
  : result string :=
  let* slot := Ethers.solidityKeccak256 [JS.Str slotOfArray] in
  if (index >? 0)%Z then
    let* increment := Ethers.BigNumber_from_number index in
    let* base := Ethers.BigNumber_from_string slot in
    Ok (Ethers.toHexString (base + increment))
  else Ok slot.

(** *** The pair address *)

Definition zeros24 : string := JS.repeat_char "0" 24.

(** The statements of the [try] block of [getPair] after the two tokens
    are put in order.  [Web3] is an imported module, so the tests [!Web3]
    and [if (Web3)] are constant; [null.substr(26)] throws. *)
Definition getPair_try `{Web3} (token0 token1 factory codeHash : string)
  : result JS.value :=
  let* abiEncoded1 := encodeParameters_address_address token0 token1 in
  let abiEncoded1 := JS.split_join zeros24 abiEncoded1 in
  let* salt := soliditySha3 [abiEncoded1] in
  let* abiEncoded2 := encodeParameters_address_bytes32 factory salt in
  let abiEncoded2 := JS.substr 2 (JS.split_join zeros24 abiEncoded2) in
  if negb (JS.truthy codeHash) then Ok JS.Undefined else
  let* hash := soliditySha3 ["0xff" ++ abiEncoded2; codeHash] in
  match hash with
  | None => Throw "Cannot read properties of null"
  | Some h =>
      let pairAddress := JS.substr 26 h in
      if JS.truthy pairAddress then Ok (JS.Str ("0x" ++ pairAddress))
      else Ok JS.Null
  end.

(** [getPair]: an exception inside the [try] block gives [null]. *)
Definition getPair `{Web3} (tokenA tokenB factory codeHash : string)
  : JS.value :=
  let '(token0, token1) :=
    if JS.lt tokenA tokenB then (tokenA, tokenB) else (tokenB, tokenA) in
  match getPair_try token0 token1 factory codeHash with
  | Ok v => v
  | Throw _ => JS.Null
  end.

(** *** The access list *)

Record TradeAddresses := {
  routerAddress : string;
  factoryAddress : string;
  address1 : string;
  address2 : string;
  from : string
}.

(** One entry [[address, [key, ...]]] of the list. *)
Definition AccessListEntry : Type := JS.value * list JS.value.

Definition slot_word (n : N) : JS.value :=
  JS.Str (Ethers.hexlify (Hex.be_bytes 32 n)).

Definition pairCodeHash : string :=
  "0xb2b81c15af25defa7f931953dc35a7a411b46f9e890702354a2899d421608c23".
Definition factoryCodeHash : string :=
  "0x3ceed391ae304e8dc31737fba00513c69846aba35d763fe6a069afbbbd727ca3".

Definition accessList_of `{Hasher} `{Web3} `{Constants}
  (m : CodeHashMap) (t : TradeAddresses) : result (list AccessListEntry) :=
  let account := from t in
  let pairAddress :=
    getPair (address1 t) (address2 t) (factoryAddress t)
      (codeHash ammAddresses) in
  let zeroAddress := "0x" ++ JS.repeat_char "0" 40 in
  let balanceMapSlot := "0x1" in
  let allPairLength := 1%Z in
  let keccak := Ethers.solidityKeccak256 in
  let* senderBalanceKey := keccak [JS.Str account; JS.Str balanceMapSlot] in
  let* pairBalanceKey := keccak [JS.Str zeroAddress; JS.Str balanceMapSlot] in
  let* allowKeyOfSender := keccak [JS.Str account; JS.Str "0x1"] in
  let* allowKeyOfSenderForPair :=
    keccak [JS.Str (routerAddress t); JS.Str allowKeyOfSender] in
  let* token_0_1_key := getNestedStorageKey (address1 t) (address2 t) "0x2" in
  let* token_1_0_key := getNestedStorageKey (address2 t) (address1 t) "0x2" in
  let* allPairKey := getArrayItemKey allPairLength "0x3" in
  let tokenSlots (token : string) : result (list JS.value) :=
    let* k1 := keccak [JS.Str (routerAddress t); JS.Str "0x3"] in
    let* k2 := keccak [pairAddress; JS.Str "0x3"] in
    let* k3 := keccak [JS.Str account; JS.Str "0x0"] in
    let* k4 := keccak [pairAddress; JS.Str "0x0"] in
    Ok [JS.Str k1; JS.Str k2; JS.Str allowKeyOfSenderForPair;
        JS.Str k3; JS.Str k4; map_get m token] in
  let* slots1 := tokenSlots (address1 t) in
  let* slots2 := tokenSlots (address2 t) in
  Ok [ (pairAddress,
        [slot_word 0; slot_word 3; slot_word 5; slot_word 6; slot_word 7;
         slot_word 8; slot_word 9; slot_word 10; slot_word 12;
         JS.Str senderBalanceKey; JS.Str pairBalanceKey;
         JS.Str pairCodeHash]);
       (JS.Str (address1 t), slots1);
       (JS.Str (address2 t), slots2);
       (JS.Str (factoryAddress t),
        [slot_word 3; JS.Str token_0_1_key; JS.Str token_1_0_key;
         JS.Str allPairKey; JS.Str factoryCodeHash]) ].

(** [generateAccessList]: what the promise settles to, and the code-hash
    map afterwards (the function only reads it). *)
Definition generateAccessList `{Hasher} `{Web3} `{Constants}
  (m : CodeHashMap) (tradeAddresses : TradeAddresses)
  : result (list AccessListEntry) * CodeHashMap :=
  (accessList_of m tradeAddresses, m).

(** *** Links, short addresses and regular expressions *)

(** The [type] argument of [getEtherscanLink]: ['transaction'], ['token'],
    ['address'] or ['block']. *)
Inductive LinkType : Type := OfTransaction | OfToken | OfAddress | OfBlock.

(** [getEtherscanLink]; neither [chainId] nor the table
    [ETHERSCAN_PREFIXES] is read. *)
Definition getEtherscanLink (chainId : Z) (data : string) (type : LinkType)
  : string :=
  let prefix := "https://explorer.liberty20.shardeum.org" in
  match type with
  | OfTransaction => prefix ++ "/tx/" ++ data
  | OfToken => prefix ++ "/token/" ++ data
  | OfBlock => prefix ++ "/block/" ++ data
  | OfAddress => prefix ++ "/address/" ++ data
  end.

(** [shortenAddress]; [chars] absent is 4. *)
Definition shortenAddress `{Hasher} (address : string) (chars : option Z)
  : result string :=
  let chars := match chars with Some n => n | None => 4%Z end in
  match isAddress address with
  | Some parsed =>
      if JS.truthy parsed
      then Ok (JS.substring parsed 0 (chars + 2) ++ "..." ++
               JS.substring_from parsed (42 - chars))
      else Throw ("Invalid 'address' parameter '" ++ address ++ "'.")
  | None => Throw ("Invalid 'address' parameter '" ++ address ++ "'.")
  end.

Definition getPairContract `{Hasher} (pairAddress : string)
  (library : Web3Provider) (account : option string) : result Contract :=
  getContract pairAddress "IUniswapV2Pair" library account.

(** The characters of the class [[.*+?^${}()|[\]\\]]. *)
Definition regExpSpecials : string :=
  String JS.backslash ".*+?^${}()|[]".

(** [escapeRegExp]: a backslash goes before every character of the class. *)
Fixpoint escapeRegExp (s : string) : string :=
  match s with
  | EmptyString => EmptyString
  | String c s' =>
      if JS.char_in c regExpSpecials
      then String JS.backslash (String c (escapeRegExp s'))
      else String c (escapeRegExp s')
  end.

End Utils.

(** ** A reference instance of web3

    What web3 does on addresses and on hexadecimal arguments. *)

Module Web3Reference.

Local Open Scope string_scope.

Definition zeros24 : string := Utils.zeros24.

(** The 40 digits of an address that [getAddress] accepts, in lower case. *)
Definition address_digits `{Hasher} (a : string) : option string :=
  match Utils.getAddress a with
  | Ok _ =>
      Some (JS.toLowerCase
              (match JS.strip_prefix "0x" a with
               | Some digits => digits
               | None => a
               end))
  | Throw _ => None
  end.

(** The digits of [0x] followed by [len] hexadecimal digits. *)
Definition hex_body (len : nat) (s : string) : option string :=
  match JS.strip_prefix "0x" s with
  | Some digits =>
      if Hex.all Hex.is_digit digits && (String.length digits =? len)%nat
      then Some (JS.toLowerCase digits) else None
  | None => None
  end.

Definition encode_address_address `{Hasher} (a b : string) : result string :=
  match address_digits a, address_digits b with
  | Some a', Some b' => Ok ("0x" ++ zeros24 ++ a' ++ zeros24 ++ b')
  | _, _ => Throw "invalid address"
  end.

Definition encode_address_bytes32 `{Hasher} (a : string)
  (salt : option string) : result string :=
  match address_digits a, salt with
  | Some a', Some s =>
      match hex_body 64 s with
      | Some s' => Ok ("0x" ++ zeros24 ++ a' ++ s')
      | None => Throw "invalid bytes32"
      end
  | _, _ => Throw "invalid address"
  end.

(** The arguments of [soliditySha3] that start with [0x] are bytes; the
    other kinds of argument are left out of this instance. *)
Fixpoint pack_bytes (args : list string) : result (list byte) :=
  match args with
  | [] => Ok []
  | a :: args' =>
      match JS.strip_prefix "0x" a with
      | Some digits =>
          match Hex.to_bytes digits with
          | Some bs =>
              let* rest := pack_bytes args' in Ok (bs ++ rest)%list
          | None => Throw "Invalid bytes characters"
          end
      | None => Throw "not a hexadecimal argument"
      end
  end.

(** [null] for an empty input, as [web3.utils.sha3] gives. *)
Definition sha3 `{Hasher} (args : list string) : result (option string) :=
  let* bs := pack_bytes args in
  match bs with
  | [] => Ok None
  | _ => Ok (Some (Ethers.hexlify (keccak256 bs)))
  end.

Definition instance `{Hasher} : Web3 := {|
  encodeParameters_address_address := encode_address_address;
  encodeParameters_address_bytes32 := encode_address_bytes32;
  soliditySha3 := sha3
|}.

End Web3Reference.

(** ** The SDK and the chain, as the swap callback sees them *)

Inductive TradeType : Type := EXACT_INPUT | EXACT_OUTPUT.

Record Percent := { numerator : Z; denominator : Z }.

Record TradeOptions := {
  feeOnTransfer : bool;
  allowedSlippage : Percent;
  recipient : string;
  deadline : Z
}.

(** An argument of a router call: a string or an array of strings. *)
Inductive Arg : Type :=
| ArgString (s : string)
| ArgArray (l : list string).

Record SwapParameters := {
  methodName : string;
  args : list Arg;
  value : string
}.

(** [Trade] and [Router.swapCallParameters] of the SDK, which throws when
    one of its own checks on the trade or on the options fails. *)
Class Sdk := {
  Trade : Type;
  tradeType : Trade -> TradeType;
  swapCallParameters : Trade -> TradeOptions -> result SwapParameters
}.

Record SwapCall := {
  contract : Utils.Contract;
  parameters : SwapParameters
}.

(** The error object of a rejected call. *)
Record CallError := {
  reason : JS.value;
  code : option Z;
  message : string
}.

(** A settled promise. *)
Inductive settled (A : Type) : Type :=
| Fulfilled (a : A)
| Rejected (e : CallError).
Arguments Fulfilled {A} a.
Arguments Rejected {A} e.

Record Overrides := {
  gasLimit : Z;
  override_value : option string;
  override_from : string
}.

(** The unsigned transaction [populateTransaction] resolves to. *)
Record PopulatedTransaction := {
  response_to : string;
  response_data : string;
  response_from : JS.value;
  response_gasLimit : option Z;
  response_value : option Z;
  response_hash : JS.value
}.

(** The object handed to [serializeTransaction] in test mode. *)
Record Transaction := {
  tx_to : string;
  tx_data : string;
  tx_value : Z;
  tx_chainId : Z;
  tx_gasPrice : Z;
  tx_gasLimit : Z;
  tx_nonce : Z;
  tx_type : Z;
  tx_accessList : list Utils.AccessListEntry
}.

(** The contract methods, the wallet and the helper [isZero] of
    [src/utils/isZero], all of them parameters. *)
Class Chain := {
  isZero : string -> bool;
  (** [contract.estimateGas[methodName](...args, options)] *)
  estimateGas : SwapCall -> option string -> settled Z;
  (** [contract.callStatic[methodName](...args, options)] *)
  callStatic : SwapCall -> option string -> settled string;
  (** [contract.populateTransaction[methodName](...args, overrides)] *)
  populateTransaction : SwapCall -> Overrides -> settled PopulatedTransaction;
  (** whether [window.ethereum] is there *)
  ethereum : bool;
  (** [eth_getTransactionCount], the answer read as a hexadecimal number *)
  eth_getTransactionCount : JS.value -> settled Z;
  (** serialise, hash, [eth_sign], serialise with the signature and
      [provider.sendTransaction]: the hash of the transaction sent *)
  signAndSend : Transaction -> settled string
}.

(** What the hooks [useActiveWeb3React], [useENS] and
    [useTransactionDeadline] return. *)
Record HookState := {
  account : option string;
  chainId : option Z;
  library : option Utils.Web3Provider;
  useENS_address : option string -> option string;
  useTransactionDeadline : option Z
}.

(** ** The swap callback hook *)

Module SwapCallback.

Local Open Scope string_scope.

Inductive SwapCallbackState : Type := INVALID | LOADING | VALID.

Inductive EstimatedSwapCall : Type :=
| SuccessfulCall (call : SwapCall) (gasEstimate : Z)
| FailedCall (call : SwapCall) (error : string).

(** Truthiness of a string that may be absent. *)
Definition present (v : option string) : option string :=
  match v with
  | Some s => if JS.truthy s then Some s else None
  | None => None
  end.

Definition present_number (v : option Z) : option Z :=
  match v with
  | Some n => if (n =? 0)%Z then None else Some n
  | None => None
  end.

Definition the_recipient (h : HookState)
  (recipientAddressOrName : option string) : option string :=
  match recipientAddressOrName with
  | None => account h
  | Some _ => useENS_address h recipientAddressOrName
  end.

Definition options_of `{Constants} (allowedSlippage : Z)
  (fee : bool) (recipient : string) (deadline : Z) : TradeOptions :=
  {| feeOnTransfer := fee;
     allowedSlippage :=
       {| numerator := allowedSlippage; denominator := BIPS_BASE |};
     recipient := recipient;
     deadline := deadline |}.

(** [useSwapCallArguments]; [allowedSlippage] absent takes the default.
    The statement that logs the deadline runs before the test on the
    dependencies, and its [deadline.toNumber()] throws for a deadline that
    is not a safe integer.  [getRouterContract] throws rather than return
    nothing, so the test [if (!contract)] never fires. *)
Definition useSwapCallArguments `{Hasher} `{Constants} `{Sdk}
  (h : HookState) (trade : option Trade) (allowedSlippage : option JS.number)
  (recipientAddressOrName : option string) : result (list SwapCall) :=
  let allowedSlippage :=
    match allowedSlippage with
    | Some x => x
    | None => JS.number_of_Z INITIAL_ALLOWED_SLIPPAGE
    end in
  let recipient := the_recipient h recipientAddressOrName in
  let deadline := useTransactionDeadline h in
  let* _ :=
    match deadline with
    | Some d => Ethers.toNumber d
    | None => Ok 0%Z
    end in
  match trade, present recipient, library h, present (account h),
        present_number (chainId h), deadline with
  | Some trade, Some recipient, Some library, Some account, Some chainId,
    Some deadline =>
      let* contract :=
        Utils.getRouterContract chainId library (Some account) in
      let* slippage := Utils.JSBI_BigInt allowedSlippage in
      let* d := Ethers.toNumber deadline in
      let* plain :=
        swapCallParameters trade (options_of slippage false recipient d) in
      let swapMethods := [plain] in
      let* swapMethods :=
        match tradeType trade with
        | EXACT_INPUT =>
            let* slippage := Utils.JSBI_BigInt allowedSlippage in
            let* d := Ethers.toNumber deadline in
            let* fee :=
              swapCallParameters trade
                (options_of slippage true recipient d) in
            Ok (swapMethods ++ [fee])%list
        | EXACT_OUTPUT => Ok swapMethods
        end in
      Ok (map (fun parameters =>
                 {| parameters := parameters; contract := contract |})
            swapMethods)
  | _, _, _, _, _, _ => Ok []
  end.

(** *** Estimation and diagnosis *)

Definition callOptions `{Chain} (value : string) : option string :=
  if negb (JS.truthy value) || isZero value then None else Some value.

Definition slippageMessage : string :=
  "This transaction will not succeed either due to price movement or fee on transfer. Try increasing your slippage tolerance.".

Definition estimationMessage : string :=
  "Unexpected issue with estimating the gas. Please try again.".

Definition noErrorMessage : string :=
  "Unexpected error. Please contact support: none of the calls threw an error".

(** The template literal of the [default] branch. *)
Definition defaultMessage (reason : JS.value) : string :=
  "The transaction cannot succeed due to error: " ++ JS.template reason ++
  ". This is probably an issue with one of the tokens you are swapping.".

(** The [switch] on [callError.reason]. *)
Definition errorMessage (reason : JS.value) : string :=
  let known :=
    match reason with
    | JS.Str r =>
        String.eqb r "SwapRouterV2: INSUFFICIENT_OUTPUT_AMOUNT"
        || String.eqb r "SwapRouterV2: EXCESSIVE_INPUT_AMOUNT"
    | _ => false
    end in
  if known then slippageMessage else defaultMessage reason.

(** The body of [swapCalls.map(...)]: one estimated call. *)
Definition estimate `{Chain} (call : SwapCall) : EstimatedSwapCall :=
  let options := callOptions (value (parameters call)) in
  match estimateGas call options with
  | Fulfilled gasEstimate => SuccessfulCall call gasEstimate
  | Rejected gasError =>
      match callStatic call options with
      | Fulfilled _ => FailedCall call estimationMessage
      | Rejected callError => FailedCall call (errorMessage (reason callError))
      end
  end.

Definition estimatedCalls `{Chain} (swapCalls : list SwapCall)
  : list EstimatedSwapCall :=
  map estimate swapCalls.

(** *** Selection *)

(** ['gasEstimate' in el] and ['error' in el] *)
Definition has_gasEstimate (el : EstimatedSwapCall) : bool :=
  match el with SuccessfulCall _ _ => true | FailedCall _ _ => false end.
Definition has_error (el : EstimatedSwapCall) : bool :=
  match el with SuccessfulCall _ _ => false | FailedCall _ _ => true end.

(** [Array.prototype.find] with the callback's three arguments. *)
Fixpoint find_from {A} (p : A -> nat -> list A -> bool) (array : list A)
  (ix : nat) (rest : list A) : option A :=
  match rest with
  | [] => None
  | el :: rest' =>
      if p el ix array then Some el else find_from p array (S ix) rest'
  end.

Definition find {A} (p : A -> nat -> list A -> bool) (l : list A)
  : option A :=
  find_from p l 0%nat l.

(** The callback of [find] ([array] is its argument [list]).
    [list[ix + 1]] is read only when [ix] is not
    the last index, so it is always there. *)
Definition isSuccessfulEstimation (el : EstimatedSwapCall) (ix : nat)
  (array : list EstimatedSwapCall) : bool :=
  has_gasEstimate el &&
  ((Z.of_nat ix =? Z.of_nat (List.length array) - 1)%Z
   || match nth_error array (ix + 1) with
      | Some next => has_gasEstimate next
      | None => false
      end).

Definition successfulEstimation (estimatedCalls : list EstimatedSwapCall)
  : option EstimatedSwapCall :=
  find isSuccessfulEstimation estimatedCalls.

(** The estimation the swap goes on with, or the error thrown. *)
Definition select (estimatedCalls : list EstimatedSwapCall)
  : result (SwapCall * Z) :=
  match successfulEstimation estimatedCalls with
  | Some (SuccessfulCall call gasEstimate) => Ok (call, gasEstimate)
  | _ =>
      let errorCalls := List.filter has_error estimatedCalls in
      match last errorCalls with
      | Some (FailedCall _ error) => Throw error
      | _ => Throw noErrorMessage
      end
  end.

(** *** Assembly *)

(** The overrides handed to [populateTransaction]. *)
Definition overrides `{Chain} (gasEstimate : Z) (value : string)
  (account : string) : Overrides :=
  {| gasLimit := Utils.calculateGasMargin gasEstimate;
     override_value :=
       if JS.truthy value && negb (isZero value) then Some value else None;
     override_from := account |}.

(** [args[1][0]] and [args[1][1]]: elements of an array, characters of a
    string. *)
Definition index_arg (a : Arg) (i : nat) : option string :=
  match a with
  | ArgArray l => nth_error l i
  | ArgString s =>
      match String.get i s with
      | Some c => Some (String c EmptyString)
      | None => None
      end
  end.

(** The [transaction] object of the test mode, built from the populated
    transaction.  Everything that throws inside the [try] block is a
    [Throw] here. *)
Definition testModeTransaction `{Hasher} `{Web3} `{Constants} `{Chain}
  (m : Utils.CodeHashMap) (args : list Arg)
  (response : PopulatedTransaction) : result Transaction :=
  match nth_error args 1 with
  | None => Throw "Cannot read properties of undefined"
  | Some path =>
      match index_arg path 0, index_arg path 1, response_from response with
      | Some address1, Some address2, JS.Str sender =>
          let ammAddresses :=
            {| Utils.factoryAddress := FACTORY_ADDRESS;
               Utils.routerAddress := ROUTER_ADDRESS;
               Utils.address1 := address1;
               Utils.address2 := address2;
               Utils.from := sender |} in
          let* accessList := fst (Utils.generateAccessList m ammAddresses) in
          match response_value response with
          | None => Throw "Cannot read properties of undefined"
          | Some originalValue =>
              match eth_getTransactionCount (response_from response) with
              | Rejected e => Throw (message e)
              | Fulfilled nonce =>
                  Ok {| tx_to := response_to response;
                        tx_data := response_data response;
                        tx_value := originalValue;
                        tx_chainId := 8080;
                        tx_gasPrice := 11000000000;
                        tx_gasLimit := 300000;
                        tx_nonce := nonce;
                        tx_type := 1;
                        tx_accessList := accessList |}
              end
          end
      | _, _, _ => Throw "invalid BigNumber value"
      end
  end.

(** The test-mode block: the transaction sent and its hash, or the error
    the [catch] logs. *)
Definition testMode `{Hasher} `{Web3} `{Constants} `{Chain}
  (m : Utils.CodeHashMap) (args : list Arg)
  (response : PopulatedTransaction) : result (Transaction * string) :=
  let* transaction := testModeTransaction m args response in
  match signAndSend transaction with
  | Fulfilled hash => Ok (transaction, hash)
  | Rejected e => Throw (message e)
  end.

(** Everything [onSwap] does after the estimations: the populated
    transaction, and the outcome of the test mode when the wallet is
    there ([None] when it is not). *)
Record Submission := {
  populated : PopulatedTransaction;
  sent : option (result (Transaction * string))
}.

Definition submit `{Hasher} `{Web3} `{Constants} `{Chain}
  (m : Utils.CodeHashMap) (account : string)
  (swapCalls : list SwapCall) : result Submission :=
  let* chosen := select (estimatedCalls swapCalls) in
  let '(call, gasEstimate) := chosen in
  let o := overrides gasEstimate (value (parameters call)) account in
  match populateTransaction call o with
  | Rejected error =>
      if match code error with Some c => (c =? 4001)%Z | None => false end
      then Throw "Transaction rejected."
      else Throw ("Swap failed: " ++ message error)
  | Fulfilled response =>
      Ok {| populated := response;
            sent :=
              if ethereum
              then Some (testMode m (args (parameters call)) response)
              else None |}
  end.

(** [onSwap]: what the promise resolves to ([undefined] without a wallet,
    else [response.hash], set only when the test mode went through), or the
    error it rejects with. *)
Definition onSwap `{Hasher} `{Web3} `{Constants} `{Chain}
  (m : Utils.CodeHashMap) (account : string)
  (swapCalls : list SwapCall) : result JS.value :=
  let* s := submit m account swapCalls in
  match sent s with
  | Some (Ok (_, hash)) => Ok (JS.Str hash)
  | Some (Throw _) => Ok (response_hash (populated s))
  | None => Ok JS.Undefined
  end.

(** *** The hook *)

Record SwapCallbackResult := {
  state : SwapCallbackState;
  callback : option (unit -> result JS.value);
  error : option string
}.

(** [useSwapCallback]; [swapCalls] is what [useSwapCallArguments] returned
    and [m] the code-hash map when the callback runs. *)
Definition useSwapCallback `{Hasher} `{Web3} `{Constants} `{Sdk} `{Chain}
  (m : Utils.CodeHashMap) (h : HookState) (swapCalls : list SwapCall)
  (trade : option Trade) (recipientAddressOrName : option string)
  : SwapCallbackResult :=
  let recipient := the_recipient h recipientAddressOrName in
  match trade, library h, present (account h), present_number (chainId h) with
  | Some _, Some _, Some account, Some _ =>
      match present recipient with
      | None =>
          match recipientAddressOrName with
          | Some _ =>
              {| state := INVALID; callback := None;
                 error := Some "Invalid recipient" |}
          | None => {| state := LOADING; callback := None; error := None |}
          end
      | Some _ =>
          {| state := VALID;
             callback := Some (fun _ => onSwap m account swapCalls);
             error := None |}
      end
  | _, _, _, _ =>
      {| state := INVALID; callback := None;
         error := Some "Missing dependencies" |}
  end.

End SwapCallback.

(** ** Fixtures

    Concrete constants, trades and chain answers to evaluate the
    definitions on. *)

Module Fixture.

Local Open Scope string_scope.

Definition DAI : string := "0x6B175474E89094C44Da98b954EedeAC495271d0F".
Definition WETH : string := "0xC02aaA39b223FE8D0A0e5C4F27eAD9083C756Cc2".
Definition USDC : string := "0xA0b86991c6218b36c1d19D4a2e9Eb0cE3606eB48".
Definition factory : string := "0x5C69bEe701ef814a2B6a3EDD4B1652CB9cc5aA6f".
Definition router : string := "0x7a250d5630B4cF539739dF2C5dAcb4c659F2488D".
Definition initCodeHash : string :=
  "0x96e8ac4277198ff8b6f785478aa9a39f403cb768dd02cbee326c3e7da348845f".
Definition sender : string := "0x5aAeb6053F3E94C9b9A09f33669435E7Ef1BeAed".

Definition constants : Constants := {|
  ROUTER_ADDRESS := router;
  FACTORY_ADDRESS := factory;
  ammAddresses :=
    {| wethAddress := WETH;
       wethCodeHash :=
         "0xd0a06b12ac47863b5c7be4185c2deaad1c61557033f56c7d4ea74429cbb25e23";
       daiAddress := DAI;
       daiCodeHash :=
         "0x4e36f96ee1667a663dfaac57c4d185a0e369a3a217e0079d49620f34f85d1ac7";
       codeHash := initCodeHash |};
  INITIAL_ALLOWED_SLIPPAGE := 50;
  BIPS_BASE := 10000
|}.

(** A trade reduced to what the router call needs. *)
Record trade := {
  kind : TradeType;
  etherIn : bool;
  amountIn : string;
  amountOut : string;
  path : list string
}.

Definition hexNumber (n : Z) : string := Ethers.toHexString n.

Definition callParameters (t : trade) (o : TradeOptions) : SwapParameters :=
  let suffix := if feeOnTransfer o
                then "SupportingFeeOnTransferTokens" else EmptyString in
  match kind t, etherIn t with
  | EXACT_INPUT, true =>
      {| methodName := "swapExactETHForTokens" ++ suffix;
         args := [ArgString (amountOut t); ArgArray (path t);
                  ArgString (recipient o); ArgString (hexNumber (deadline o))];
         value := amountIn t |}
  | EXACT_INPUT, false =>
      {| methodName := "swapExactTokensForTokens" ++ suffix;
         args := [ArgString (amountIn t); ArgString (amountOut t);
                  ArgArray (path t); ArgString (recipient o);
                  ArgString (hexNumber (deadline o))];
         value := "0x0" |}
  | EXACT_OUTPUT, true =>
      {| methodName := "swapETHForExactTokens";
         args := [ArgString (amountOut t); ArgArray (path t);
                  ArgString (recipient o); ArgString (hexNumber (deadline o))];
         value := amountIn t |}
  | EXACT_OUTPUT, false =>
      {| methodName := "swapTokensForExactTokens";
         args := [ArgString (amountOut t); ArgString (amountIn t);
                  ArgArray (path t); ArgString (recipient o);
                  ArgString (hexNumber (deadline o))];
         value := "0x0" |}
  end.

Definition sdk : Sdk := {|
  Trade := trade;
  tradeType := kind;
  swapCallParameters := fun t o => Ok (callParameters t o)
|}.

Definition exactInput : trade :=
  {| kind := EXACT_INPUT; etherIn := true; amountIn := "0x0de0b6b3a7640000";
     amountOut := "0x1bc16d674ec80000"; path := [WETH; DAI] |}.

Definition exactOutput : trade :=
  {| kind := EXACT_OUTPUT; etherIn := true; amountIn := "0x0de0b6b3a7640000";
     amountOut := "0x1bc16d674ec80000"; path := [WETH; DAI] |}.

Definition hooks : HookState := {|
  account := Some sender;
  chainId := Some 8081;
  library := Some (Utils.provider "injected");
  useENS_address := fun name => name;
  useTransactionDeadline := Some 1700000000
|}.

Definition routerContract : Utils.Contract := {|
  Utils.contract_address := router;
  Utils.contract_abi := "IUniswapV2Router02";
  Utils.contract_runner := Utils.UseSigner (Utils.provider "injected") sender
|}.

Definition call (method : string) : SwapCall := {|
  contract := routerContract;
  parameters :=
    {| methodName := method;
       args := [ArgString "0x1bc16d674ec80000"; ArgArray [WETH; DAI];
                ArgString sender; ArgString "0x6553f100"];
       value := "0x0de0b6b3a7640000" |}
|}.

Definition plainCall : SwapCall := call "swapExactETHForTokens".
Definition feeCall : SwapCall :=
  call "swapExactETHForTokensSupportingFeeOnTransferTokens".

Definition revert (r : string) : CallError :=
  {| reason := JS.Str r; code := None; message := r |}.

Definition isZeroHex (s : string) : bool :=
  match JS.strip_prefix "0x" s with
  | Some digits => Hex.all (Ascii.eqb "0") digits
  | None => false
  end.

Definition populate (c : SwapCall) (o : Overrides) : PopulatedTransaction :=
  {| response_to := Utils.contract_address (contract c);
     response_data := "0x7ff36ab5";
     response_from := JS.Str (override_from o);
     response_gasLimit := Some (gasLimit o);
     response_value :=
       match override_value o with
       | Some v => match Ethers.BigNumber_from_string v with
                   | Ok b => Some b
                   | Throw _ => None
                   end
       | None => None
       end;
     response_hash := JS.Undefined |}.

(** A chain on which every estimation gives [gas]. *)
Definition quietChain (gas : Z) : Chain := {|
  isZero := isZeroHex;
  estimateGas := fun _ _ => Fulfilled gas;
  callStatic := fun _ _ => Fulfilled "0x";
  populateTransaction := fun c o => Fulfilled (populate c o);
  ethereum := true;
  eth_getTransactionCount := fun _ => Fulfilled 7;
  signAndSend := fun _ =>
    Fulfilled "0x0334bcf3ee47ad9545a5fdc194710e9466a9ba311b6c4f554e20885dedd015f8"
|}.

(** A chain on which every estimation fails and the simulated call of the
    method [m] reverts with [r], the others succeed. *)
Definition revertingChain (m r : string) : Chain := {|
  isZero := isZeroHex;
  estimateGas := fun _ _ => Rejected (revert "gas required exceeds allowance");
  callStatic := fun c _ =>
    if String.eqb (methodName (parameters c)) m
    then Rejected (revert r) else Fulfilled "0x";
  populateTransaction := fun c o => Fulfilled (populate c o);
  ethereum := true;
  eth_getTransactionCount := fun _ => Fulfilled 7;
  signAndSend := fun _ =>
    Fulfilled "0x0334bcf3ee47ad9545a5fdc194710e9466a9ba311b6c4f554e20885dedd015f8"
|}.

(** A hash whose every digest is 32 bytes [0xff]. *)
Definition saturatedHasher : Hasher := fun _ => repeat xff 32.

(** 2^256 as [toHexString] prints it: 33 bytes. *)
Definition top_key : string :=
  "0x010000000000000000000000000000000000000000000000000000000000000000".

Definition swapAddresses : Utils.TradeAddresses :=
  {| Utils.routerAddress := router;
     Utils.factoryAddress := factory;
     Utils.address1 := WETH;
     Utils.address2 := DAI;
     Utils.from := sender |}.

(** The error of a wallet whose user refuses to sign. *)
Definition refusedSignature : CallError :=
  {| reason := JS.Undefined; code := Some 4001;
     message := "MetaMask Message Signature: User denied message signature." |}.

(** A chain on which every estimation gives [gas] and the user refuses to
    sign the transaction of the test mode. *)
Definition refusingChain (gas : Z) : Chain := {|
  isZero := isZeroHex;
  estimateGas := fun _ _ => Fulfilled gas;
  callStatic := fun _ _ => Fulfilled "0x";
  populateTransaction := fun c o => Fulfilled (populate c o);
  ethereum := true;
  eth_getTransactionCount := fun _ => Fulfilled 7;
  signAndSend := fun _ => Rejected refusedSignature
|}.


(** A call of a swap of tokens for tokens: the second argument is the
    minimum amount out and the path comes third. *)
Definition tokenCall : SwapCall := {|
  contract := routerContract;
  parameters :=
    {| methodName := "swapExactTokensForTokens";
       args := [ArgString "0x0de0b6b3a7640000";
                ArgString "0x1bc16d674ec80000"; ArgArray [WETH; DAI];
                ArgString sender; ArgString "0x6553f100"];
       value := "0x0" |}
|}.

(** The hooks with a deadline of 2^53. *)
Definition lateHooks : HookState := {|
  account := Some sender;
  chainId := Some 8081;
  library := Some (Utils.provider "injected");
  useENS_address := fun name => name;
  useTransactionDeadline := Some 9007199254740992
|}.

End Fixture.

(** ** Vocabulary of the specification *)

Module Spec.

Import SwapCallback.

(** A 256-bit hash: every digest has 32 bytes. *)
Definition digest256 (H : Hasher) : Prop :=
  forall msg, List.length (@keccak256 H msg) = 32%nat.

(** The selection rule in the words of the specification: the outcome at
    [i] is a success, and [i] is the last index or the outcome at [i + 1]
    is a success too. *)
Definition rule (outcomes : list EstimatedSwapCall) (i : nat) : Prop :=
  (exists c g, nth_error outcomes i = Some (SuccessfulCall c g)) /\
  (S i = List.length outcomes \/
   exists c g, nth_error outcomes (S i) = Some (SuccessfulCall c g)).

(** Unsigned 256-bit addition with wraparound. *)
Definition wrapping_add (a b : Z) : Z := (a + b) mod 2 ^ 256.

(** A string may be packed as a [uint]. *)
Definition is_uint (s : string) : Prop :=
  exists packed, Ethers.pack_uint (JS.Str s) = Ok packed.

(** An address as the callers pass it: [0x] and 40 hexadecimal digits that
    [getAddress] accepts. *)
Definition is_address `{Hasher} (a : string) : Prop :=
  JS.startsWith "0x" a = true /\ is_ok (Utils.getAddress a) = true.

(** A non-empty string of [0x] and an even number of hexadecimal digits. *)
Definition is_bytes (s : string) : Prop :=
  JS.truthy s = true /\
  exists digits bs,
    JS.strip_prefix "0x" s = Some digits /\ Hex.to_bytes digits = Some bs.

(** The access list for [t] has four entries, for the pair, the two tokens
    and the factory in this order, the code-hash map is left as it was and
    a second call returns the same. *)
Definition four_entries `{Hasher} `{Web3} `{Constants}
  (m : Utils.CodeHashMap) (t : Utils.TradeAddresses) (pair : string) : Prop :=
  exists al,
    Utils.generateAccessList m t = (Ok al, m) /\
    List.length al = 4%nat /\
    map fst al = [JS.Str pair; JS.Str (Utils.address1 t);
                  JS.Str (Utils.address2 t); JS.Str (Utils.factoryAddress t)] /\
    Utils.generateAccessList (snd (Utils.generateAccessList m t)) t =
      (Ok al, m).

(** The gas limit of the transaction that was sent, if one was. *)
Definition sent_gasLimit (r : result Submission) : option Z :=
  match r with
  | Ok s =>
      match sent s with
      | Some (Ok (tx, _)) => Some (tx_gasLimit tx)
      | _ => None
      end
  | Throw _ => None
  end.

(** The text a regular expression spells when it is made only of plain
    characters and of escaped special characters; [None] for any other
    expression. *)
Fixpoint literal_text (pattern : string) : option string :=
  match pattern with
  | EmptyString => Some EmptyString
  | String c rest =>
      if Ascii.eqb c JS.backslash then
        match rest with
        | String d rest' =>
            if JS.char_in d Utils.regExpSpecials
            then option_map (String d) (literal_text rest')
            else None
        | EmptyString => None
        end
      else if JS.char_in c Utils.regExpSpecials then None
      else option_map (String c) (literal_text rest)
  end.

(** The last character of [x] is there and is not the digit 0. *)
Fixpoint ends_nonzero (x : string) : bool :=
  match x with
  | EmptyString => false
  | String c EmptyString => negb (Ascii.eqb c "0")
  | String _ x' => ends_nonzero x'
  end.

(** The number of special characters of a regular expression in [s]. *)
Fixpoint count_specials (s : string) : nat :=
  match s with
  | EmptyString => 0
  | String c s' =>
      (if JS.char_in c Utils.regExpSpecials then 1 else 0) + count_specials s'
  end.

(** The character [checksum_chars] puts for [c] at a nibble [n]. *)
Definition raised (n : N) (c : ascii) : ascii :=
  if (8 <=? n)%N
  then (let k := N_of_ascii c in
        if ((97 <=? k) && (k <=? 122))%N then ascii_of_N (k - 32) else c)
  else c.

End Spec.

(** * Properties *)

Local Open Scope string_scope.
Local Open Scope Z_scope.
Local Open Scope list_scope.

(** ** The model of Keccak-256 on known digests *)

Example keccak256_empty :
  Hex.of_bytes (Keccak.keccak256 []) =
  "c5d2460186f7233c927e7db2dcc703c0e500b653ca82273b7bfad8045d85a470".
Proof. vm_compute. reflexivity. Qed.

Example keccak256_slot3 :
  Hex.of_bytes (Keccak.keccak256 (Hex.be_bytes 32 3)) =
  "c2575a0e9e593c00f959f8c92f12db2869c3395a3b0502d05e2516446f71f85b".
Proof. vm_compute. reflexivity. Qed.

(** The address of the DAI/WETH pair of the Uniswap V2 factory, from either
    order of the tokens. *)
Example getPair_dai_weth :
  @Utils.getPair (@Web3Reference.instance keccak_hasher)
    Fixture.DAI Fixture.WETH Fixture.factory Fixture.initCodeHash =
  JS.Str "0xa478c2975ab1ea89e8196811f51a7b7ade33eb11" /\
  @Utils.getPair (@Web3Reference.instance keccak_hasher)
    Fixture.WETH Fixture.DAI Fixture.factory Fixture.initCodeHash =
  JS.Str "0xa478c2975ab1ea89e8196811f51a7b7ade33eb11".
Proof. split; vm_compute; reflexivity. Qed.

(** The key of element 1 of the array at slot 3. *)
Example getArrayItemKey_slot3 :
  @Utils.getArrayItemKey keccak_hasher 1 "0x3" =
  Ok "0xc2575a0e9e593c00f959f8c92f12db2869c3395a3b0502d05e2516446f71f85c".
Proof. vm_compute. reflexivity. Qed.

Example getAddress_checksum :
  @Utils.getAddress keccak_hasher "0x5aaeb6053f3e94c9b9a09f33669435e7ef1beaed" =
  Ok Fixture.sender.
Proof. vm_compute. reflexivity. Qed.

(** ** Hexadecimal text and numbers *)

Section HexFacts.

Local Open Scope N_scope.

Lemma value_digit k : k < 16 -> Hex.value (Hex.digit k) = Some k.
Proof.
  intros Hk.
  destruct k as [| p]; [reflexivity |].
  do 4 (destruct p as [p | p |]; try reflexivity); lia.
Qed.

Lemma to_N_byte_of_N n : Byte.to_N (Hex.byte_of_N n) = n mod 256.
Proof.
  unfold Hex.byte_of_N.
  destruct (Byte.of_N (n mod 256)) as [b |] eqn:Hb.
  - apply Byte.to_of_N. exact Hb.
  - apply Byte.of_N_None_iff in Hb.
    pose proof (N.mod_upper_bound n 256). lia.
Qed.

Lemma parse_of_byte acc b s :
  Hex.parse_from 16 acc (Hex.of_byte b ++ s)%string =
  Hex.parse_from 16 (256 * acc + Byte.to_N b) s.
Proof.
  pose proof (Byte.to_N_bounded b) as Hb.
  unfold Hex.of_byte. cbv [String.append]. cbn [Hex.parse_from].
  assert (Hh : Byte.to_N b / 16 < 16)
    by (apply N.Div0.div_lt_upper_bound; lia).
  assert (Hl : Byte.to_N b mod 16 < 16) by (apply N.mod_upper_bound; lia).
  rewrite (value_digit _ Hh), (value_digit _ Hl).
  apply N.ltb_lt in Hh, Hl. rewrite Hh, Hl.
  f_equal. pose proof (N.div_mod (Byte.to_N b) 16). lia.
Qed.

Lemma parse_of_bytes bs : forall acc,
  Hex.parse_from 16 acc (Hex.of_bytes bs) = Some (Hex.be_value_from acc bs).
Proof.
  induction bs as [| b bs IH]; intros acc; [reflexivity |].
  cbn [Hex.of_bytes Hex.be_value_from].
  rewrite parse_of_byte. apply IH.
Qed.

Lemma be_value_from_app bs : forall acc b,
  Hex.be_value_from acc (bs ++ [b]) =
  256 * Hex.be_value_from acc bs + Byte.to_N b.
Proof.
  induction bs as [| b' bs IH]; intros acc b; [reflexivity |].
  cbn [app Hex.be_value_from]. apply IH.
Qed.

Lemma be_value_be_bytes len : forall n,
  Hex.be_value (Hex.be_bytes len n) = n mod 256 ^ N.of_nat len.
Proof.
  unfold Hex.be_value.
  induction len as [| len IH]; intros n.
  - cbn. rewrite N.mod_1_r. reflexivity.
  - cbn [Hex.be_bytes]. rewrite be_value_from_app, IH, to_N_byte_of_N.
    rewrite Nat2N.inj_succ, N.pow_succ_r'.
    rewrite N.Div0.mod_mul_r. lia.
Qed.

Lemma be_value_from_bound bs : forall acc,
  Hex.be_value_from acc bs < (acc + 1) * 256 ^ N.of_nat (List.length bs).
Proof.
  induction bs as [| b bs IH]; intros acc.
  - cbn. lia.
  - cbn [Hex.be_value_from List.length].
    rewrite Nat2N.inj_succ, N.pow_succ_r'.
    pose proof (Byte.to_N_bounded b).
    eapply N.lt_le_trans; [apply IH |].
    rewrite N.mul_assoc. apply N.mul_le_mono_r. lia.
Qed.

Lemma be_value_bound bs :
  Hex.be_value bs < 256 ^ N.of_nat (List.length bs).
Proof.
  pose proof (be_value_from_bound bs 0). unfold Hex.be_value. lia.
Qed.

Lemma byte_length_fits n : n < 256 ^ N.of_nat (Hex.byte_length n).
Proof.
  unfold Hex.byte_length.
  eapply N.lt_le_trans; [apply N.size_gt |].
  replace 256 with (2 ^ 8) by reflexivity. rewrite <- N.pow_mul_r.
  apply N.pow_le_mono_r; [lia |].
  pose proof (N.div_mod (N.size n + 7) 8).
  pose proof (N.mod_upper_bound (N.size n + 7) 8).
  lia.
Qed.

Lemma be_bytes_length len : forall n, List.length (Hex.be_bytes len n) = len.
Proof.
  induction len as [| len IH]; intros n; [reflexivity |].
  cbn [Hex.be_bytes]. rewrite length_app, IH. simpl. lia.
Qed.

End HexFacts.

Section BigNumberFacts.

Import Ethers.

Lemma strip_prefix_0x d :
  JS.strip_prefix "0x" (String "0" (String "x" d)) = Some d.
Proof. reflexivity. Qed.

Lemma BigNumber_from_hexlify bs :
  bs <> [] ->
  BigNumber_from_string (hexlify bs) = Ok (Z.of_N (Hex.be_value bs)).
Proof.
  intros Hne. destruct bs as [| b bs]; [congruence |].
  unfold BigNumber_from_string, hexlify.
  cbv [String.append]. rewrite strip_prefix_0x.
  change (JS.truthy (Hex.of_bytes (b :: bs))) with true.
  cbv iota. unfold Hex.parse. rewrite parse_of_bytes.
  f_equal. fold (Hex.be_value (b :: bs)). lia.
Qed.

Lemma BigNumber_from_toHexString v :
  0 <= v -> BigNumber_from_string (toHexString v) = Ok v.
Proof.
  intros Hv. unfold toHexString.
  replace (v <? 0) with false by lia.
  change (EmptyString ++ ?s)%string with s.
  set (n := Z.to_N (Z.abs v)).
  fold (hexlify (Hex.be_bytes (Hex.byte_length n) n)).
  rewrite BigNumber_from_hexlify.
  - rewrite be_value_be_bytes, N.mod_small by apply byte_length_fits.
    f_equal. lia.
  - intros Hnil. apply (f_equal (@List.length byte)) in Hnil.
    rewrite be_bytes_length in Hnil. unfold Hex.byte_length in Hnil.
    simpl in Hnil. lia.
Qed.

End BigNumberFacts.

(** ** Text of hexadecimal digits *)

Section Text.

Local Abbreviation hex s := (Hex.all Hex.is_digit s = true).

Lemma append_cons c s1 s2 :
  (String c s1 ++ s2)%string = String c (s1 ++ s2)%string.
Proof. reflexivity. Qed.

Lemma append_empty s : (EmptyString ++ s)%string = s.
Proof. reflexivity. Qed.

Lemma all_append p s1 s2 :
  Hex.all p (s1 ++ s2)%string = Hex.all p s1 && Hex.all p s2.
Proof.
  induction s1 as [| c s1 IH]; [reflexivity |].
  rewrite append_cons. cbn [Hex.all]. rewrite IH, andb_assoc. reflexivity.
Qed.

Lemma length_append s1 s2 :
  String.length (s1 ++ s2)%string = (String.length s1 + String.length s2)%nat.
Proof.
  induction s1 as [| c s1 IH]; [reflexivity |].
  rewrite append_cons. cbn [String.length]. rewrite IH. reflexivity.
Qed.

Lemma startsWith_length p : forall s,
  JS.startsWith p s = true -> (String.length p <= String.length s)%nat.
Proof.
  induction p as [| a p IH]; intros s Hs; [simpl; lia |].
  destruct s as [| b s]; [discriminate |].
  simpl in Hs. apply andb_true_iff in Hs as [_ Hs].
  specialize (IH s Hs). simpl. lia.
Qed.

Lemma remove_from_hex pat s : forall skip,
  hex s -> hex (JS.remove_from pat skip s).
Proof.
  induction s as [| c s IH]; intros skip Hs; [reflexivity |].
  cbn [Hex.all] in Hs. apply andb_true_iff in Hs as [Hc Hs].
  cbn [JS.remove_from]. destruct skip as [| k]; [| apply IH; exact Hs].
  destruct (JS.startsWith pat (String c s)); [apply IH; exact Hs |].
  cbn [Hex.all]. rewrite Hc. apply IH. exact Hs.
Qed.

Lemma remove_from_length pat s : forall skip,
  (0 < String.length pat)%nat ->
  (skip <= String.length s)%nat ->
  exists k, String.length s =
            (String.length (JS.remove_from pat skip s) + skip
             + String.length pat * k)%nat.
Proof.
  intros skip Hpat. revert skip.
  induction s as [| c s IH]; intros skip Hskip.
  - simpl in Hskip. exists 0%nat. simpl. lia.
  - cbn [JS.remove_from]. destruct skip as [| k].
    + destruct (JS.startsWith pat (String c s)) eqn:Hstart.
      * apply startsWith_length in Hstart. simpl in Hstart.
        destruct (IH (String.length pat - 1)%nat ltac:(lia)) as (k & Hk).
        exists (S k). simpl. lia.
      * destruct (IH 0%nat ltac:(lia)) as (k & Hk).
        exists k. simpl. lia.
    + simpl in Hskip.
      destruct (IH k ltac:(lia)) as (k' & Hk').
      exists k'. simpl. lia.
Qed.

Lemma split_join_0x s :
  JS.split_join Utils.zeros24 (String "0" (String "x" s)) =
  String "0" (String "x" (JS.split_join Utils.zeros24 s)).
Proof. reflexivity. Qed.

Lemma is_digit_digit k : (k < 16)%N -> Hex.is_digit (Hex.digit k) = true.
Proof.
  intros Hk. unfold Hex.is_digit. rewrite (value_digit k Hk). reflexivity.
Qed.

Lemma of_bytes_hex bs : hex (Hex.of_bytes bs).
Proof.
  induction bs as [| b bs IH]; [reflexivity |].
  cbn [Hex.of_bytes]. unfold Hex.of_byte. rewrite !append_cons, append_empty.
  pose proof (Byte.to_N_bounded b) as Hb.
  cbn [Hex.all].
  rewrite !is_digit_digit, IH; [reflexivity | |].
  - apply N.mod_upper_bound. lia.
  - apply N.Div0.div_lt_upper_bound. lia.
Qed.

Lemma of_bytes_length bs :
  String.length (Hex.of_bytes bs) = (2 * List.length bs)%nat.
Proof.
  induction bs as [| b bs IH]; [reflexivity |].
  cbn [Hex.of_bytes]. unfold Hex.of_byte. rewrite !append_cons, append_empty.
  cbn [String.length List.length]. rewrite IH. lia.
Qed.

Lemma to_bytes_hex n : forall s,
  String.length s = (2 * n)%nat -> hex s ->
  exists bs, Hex.to_bytes s = Some bs /\ List.length bs = n.
Proof.
  induction n as [| n IH]; intros s Hlen Hs.
  - destruct s; [| discriminate]. exists []. split; reflexivity.
  - destruct s as [| c1 [| c2 s]]; try (simpl in Hlen; lia).
    cbn [Hex.all] in Hs.
    apply andb_true_iff in Hs as [H1 Hs].
    apply andb_true_iff in Hs as [H2 Hs].
    destruct (IH s) as (bs & Hbs & Hl); [simpl in Hlen; lia | exact Hs |].
    unfold Hex.is_digit in H1, H2.
    cbn [Hex.to_bytes].
    destruct (Hex.value c1); [| discriminate].
    destruct (Hex.value c2); [| discriminate].
    rewrite Hbs. eexists. split; [reflexivity |]. simpl. lia.
Qed.

Lemma lower_char_hex c :
  Hex.is_digit c = true -> Hex.is_digit (JS.lower_char c) = true.
Proof.
  destruct c as [[] [] [] [] [] [] [] []]; intros Hc;
    try discriminate Hc; reflexivity.
Qed.

Lemma toLowerCase_hex s : hex s -> hex (JS.toLowerCase s).
Proof.
  induction s as [| c s IH]; intros Hs; [reflexivity |].
  cbn [Hex.all] in Hs. apply andb_true_iff in Hs as [Hc Hs].
  cbn [JS.toLowerCase Hex.all].
  rewrite (lower_char_hex c Hc), (IH Hs). reflexivity.
Qed.

Lemma toLowerCase_length s :
  String.length (JS.toLowerCase s) = String.length s.
Proof.
  induction s as [| c s IH]; [reflexivity |].
  cbn [JS.toLowerCase String.length]. rewrite IH. reflexivity.
Qed.

Lemma substr_hex n : forall s, hex s -> hex (JS.substr n s).
Proof.
  induction n as [| n IH]; intros s Hs; [destruct s; exact Hs |].
  destruct s as [| c s]; [reflexivity |].
  cbn [Hex.all] in Hs. apply andb_true_iff in Hs as [_ Hs].
  cbn [JS.substr]. apply IH. exact Hs.
Qed.

Lemma substr_length n : forall s,
  String.length (JS.substr n s) = (String.length s - n)%nat.
Proof.
  induction n as [| n IH]; intros s; [destruct s; simpl; lia |].
  destruct s as [| c s]; [reflexivity |].
  cbn [JS.substr String.length]. rewrite IH. lia.
Qed.

Lemma value_lt16 c d : Hex.value c = Some d -> (d < 16)%N.
Proof.
  destruct c as [[] [] [] [] [] [] [] []]; cbn; intros Hd;
    try discriminate Hd; injection Hd as <-; reflexivity.
Qed.

Lemma parse_from_hex s : forall acc,
  hex s ->
  exists v, Hex.parse_from 16 acc s = Some v /\
            (v < (acc + 1) * 16 ^ N.of_nat (String.length s))%N.
Proof.
  induction s as [| c s IH]; intros acc Hs.
  - exists acc. split; [reflexivity |]. simpl. lia.
  - cbn [Hex.all] in Hs. apply andb_true_iff in Hs as [Hc Hs].
    cbn [Hex.parse_from]. unfold Hex.is_digit in Hc.
    destruct (Hex.value c) as [d |] eqn:Hd; [| discriminate].
    pose proof (value_lt16 c d Hd) as Hlt.
    apply N.ltb_lt in Hlt as Hltb. rewrite Hltb.
    destruct (IH (16 * acc + d)%N Hs) as (v & Hv & Hbound).
    exists v. split; [exact Hv |].
    cbn [String.length]. rewrite Nat2N.inj_succ, N.pow_succ_r'.
    eapply N.lt_le_trans; [exact Hbound |].
    rewrite N.mul_assoc. apply N.mul_le_mono_r. lia.
Qed.
End Text.

(** ** The order on strings *)

Lemma lt_asym a b : JS.lt a b = true -> JS.lt b a = false.
Proof.
  unfold JS.lt, String.ltb. rewrite (String.compare_antisym a b).
  destruct (String.compare b a); simpl; congruence.
Qed.

Lemma lt_total a b : JS.lt a b = false -> JS.lt b a = false -> a = b.
Proof.
  unfold JS.lt, String.ltb. rewrite (String.compare_antisym a b).
  destruct (String.compare b a) eqn:Hc; simpl; try congruence.
  intros _ _. symmetry. apply String.compare_eq_iff. exact Hc.
Qed.

(** ** The candidate selector *)

Section Selection.

Import SwapCallback Spec.

Lemma has_gasEstimate_spec el :
  has_gasEstimate el = true <-> exists c g, el = SuccessfulCall c g.
Proof.
  destruct el; simpl; split; intros H; eauto; try discriminate.
  destruct H as (? & ? & ?); discriminate.
Qed.

Lemma isSuccessfulEstimation_rule l i el :
  nth_error l i = Some el ->
  isSuccessfulEstimation el i l = true <-> rule l i.
Proof.
  intros Hi. unfold isSuccessfulEstimation, rule.
  assert (Hlt : (i < List.length l)%nat)
    by (apply nth_error_Some; congruence).
  rewrite andb_true_iff, orb_true_iff, Z.eqb_eq, has_gasEstimate_spec.
  replace (i + 1)%nat with (S i) by lia.
  split.
  - intros [(c & g & ->) H]. split; [eauto |].
    destruct H as [H | H]; [left; lia | right].
    destruct (nth_error l (S i)) as [next |]; [| discriminate].
    apply has_gasEstimate_spec in H. destruct H as (c' & g' & ->). eauto.
  - intros [(c & g & Hc) H]. rewrite Hi in Hc. injection Hc as ->.
    split; [eauto |].
    destruct H as [H | (c' & g' & ->)]; [left; lia | right; reflexivity].
Qed.

(** [find] returns the first element, by index, that the callback
    accepts. *)
Lemma find_from_first {A} (p : A -> nat -> list A -> bool) l :
  forall rest ix,
    (forall k, nth_error rest k = nth_error l (ix + k)) ->
    match find_from p l ix rest with
    | Some el =>
        exists i, (ix <= i)%nat /\ nth_error l i = Some el /\
                  p el i l = true /\
                  forall j el', (ix <= j < i)%nat ->
                                nth_error l j = Some el' -> p el' j l = false
    | None =>
        forall j el', (ix <= j)%nat -> nth_error l j = Some el' ->
                      p el' j l = false
    end.
Proof.
  induction rest as [| el rest IH]; intros ix Hrest; simpl.
  - intros j el' Hj Hn.
    specialize (Hrest (j - ix)%nat).
    replace (ix + (j - ix))%nat with j in Hrest by lia.
    rewrite Hn in Hrest. destruct (j - ix)%nat; discriminate.
  - pose proof (Hrest 0%nat) as H0. simpl in H0.
    replace (ix + 0)%nat with ix in H0 by lia.
    destruct (p el ix l) eqn:Hp.
    + exists ix. repeat split; auto. intros; lia.
    + specialize (IH (S ix)).
      assert (Hrest' : forall k, nth_error rest k = nth_error l (S ix + k)).
      { intros k. specialize (Hrest (S k)). simpl in Hrest.
        rewrite Hrest. f_equal. lia. }
      specialize (IH Hrest').
      destruct (find_from p l (S ix) rest) as [found |].
      * destruct IH as (i & Hi & Hn & Hpi & Hmin).
        exists i. repeat split; auto; try lia.
        intros j el' Hj Hnj.
        destruct (Nat.eq_dec j ix) as [-> | Hne].
        -- rewrite <- H0 in Hnj. injection Hnj as <-. exact Hp.
        -- apply Hmin; auto. lia.
      * intros j el' Hj Hnj.
        destruct (Nat.eq_dec j ix) as [-> | Hne].
        -- rewrite <- H0 in Hnj. injection Hnj as <-. exact Hp.
        -- apply IH; auto. lia.
Qed.

Lemma rule_in_range l i : rule l i -> (i < List.length l)%nat.
Proof.
  intros [(c & g & H) _]. apply nth_error_Some. congruence.
Qed.

Lemma successfulEstimation_spec l :
  match successfulEstimation l with
  | Some el =>
      exists i, nth_error l i = Some el /\ rule l i /\
                forall j, (j < i)%nat -> ~ rule l j
  | None => forall i, ~ rule l i
  end.
Proof.
  unfold successfulEstimation, find.
  pose proof (find_from_first isSuccessfulEstimation l l 0%nat
                (fun k => eq_refl)) as H.
  destruct (find_from isSuccessfulEstimation l 0 l) as [el |].
  - destruct H as (i & _ & Hn & Hp & Hmin).
    exists i. split; [exact Hn |]. split.
    + apply (isSuccessfulEstimation_rule l i el Hn). exact Hp.
    + intros j Hj Hr.
      pose proof (rule_in_range _ _ Hr) as Hlt.
      destruct (nth_error l j) as [el' |] eqn:Hnj.
      * apply (isSuccessfulEstimation_rule l j el' Hnj) in Hr.
        rewrite (Hmin j el') in Hr; [discriminate | lia | exact Hnj].
      * apply nth_error_None in Hnj. lia.
  - intros i Hr.
    pose proof (rule_in_range _ _ Hr) as Hlt.
    destruct (nth_error l i) as [el' |] eqn:Hni.
    + apply (isSuccessfulEstimation_rule l i el' Hni) in Hr.
      rewrite (H i el') in Hr; [discriminate | lia | exact Hni].
    + apply nth_error_None in Hni. lia.
Qed.

(** C1. The candidate selector returns the outcome at the first index
    that satisfies the selection rule (a success that is last or followed
    by a success), and nothing when no index satisfies it.  For the
    outcomes [Success 100; Success 120] it is the outcome at index 0, for
    [Failure; Success 120] the one at index 1, and for
    [Success 100; Failure] there is none and selection throws. *)
Theorem candidate_selector_first_viable :
  (forall outcomes,
      match successfulEstimation outcomes with
      | Some el =>
          exists i, nth_error outcomes i = Some el /\ rule outcomes i /\
                    forall j, (j < i)%nat -> ~ rule outcomes j
      | None => forall i, ~ rule outcomes i
      end) /\
  (forall c0 c1,
      let outcomes := [SuccessfulCall c0 100; SuccessfulCall c1 120] in
      successfulEstimation outcomes = nth_error outcomes 0 /\
      select outcomes = Ok (c0, 100)) /\
  (forall c0 c1 e,
      let outcomes := [FailedCall c0 e; SuccessfulCall c1 120] in
      successfulEstimation outcomes = nth_error outcomes 1 /\
      select outcomes = Ok (c1, 120)) /\
  (forall c0 c1 e,
      let outcomes := [SuccessfulCall c0 100; FailedCall c1 e] in
      successfulEstimation outcomes = None /\
      select outcomes = Throw e).
Proof.
  split; [exact successfulEstimation_spec |].
  repeat split; reflexivity.
Qed.

Lemma filter_all_success l :
  forallb has_gasEstimate l = true -> List.filter has_error l = [].
Proof.
  induction l as [| el l IH]; simpl; [reflexivity |].
  intros H. apply andb_true_iff in H as [Hel Hl].
  destruct el; simpl in *; [auto | discriminate].
Qed.

Lemma last_failure l1 c e l2 :
  forallb has_gasEstimate l2 = true ->
  last (List.filter has_error (l1 ++ FailedCall c e :: l2)) =
  Some (FailedCall c e).
Proof.
  intros H. rewrite List.filter_app. simpl.
  rewrite (filter_all_success l2 H).
  apply last_snoc.
Qed.

Lemma select_none l :
  successfulEstimation l = None ->
  select l = match last (List.filter has_error l) with
             | Some (FailedCall _ error) => Throw error
             | _ => Throw noErrorMessage
             end.
Proof. intros H. unfold select. rewrite H. reflexivity. Qed.

Lemma onSwap_select_throw `{Hasher} `{Web3} `{Constants} `{Chain}
  m account swapCalls e :
  select (estimatedCalls swapCalls) = Throw e ->
  onSwap m account swapCalls = Throw e.
Proof. intros Hs. unfold onSwap, submit. rewrite Hs. reflexivity. Qed.

(** C6. When no outcome satisfies the selection rule, [onSwap] throws:
    the error of the last failed outcome in candidate order when there is
    one, and the message that no call threw an error when every outcome
    is a success. *)
Theorem selection_failure_throws `{Hasher} `{Web3} `{Constants} `{Chain}
  (m : Utils.CodeHashMap) (account : string) (swapCalls : list SwapCall) :
  successfulEstimation (estimatedCalls swapCalls) = None ->
  (forall l1 c e l2,
      estimatedCalls swapCalls = l1 ++ FailedCall c e :: l2 ->
      forallb has_gasEstimate l2 = true ->
      select (estimatedCalls swapCalls) = Throw e /\
      onSwap m account swapCalls = Throw e) /\
  (forallb has_gasEstimate (estimatedCalls swapCalls) = true ->
   select (estimatedCalls swapCalls) = Throw noErrorMessage /\
   onSwap m account swapCalls = Throw noErrorMessage).
Proof.
  intros Hnone. pose proof (select_none _ Hnone) as Hsel. split.
  - intros l1 c e l2 Hl Hl2.
    assert (Hs : select (estimatedCalls swapCalls) = Throw e).
    { rewrite Hsel, Hl, (last_failure l1 c e l2 Hl2). reflexivity. }
    split; [exact Hs | apply onSwap_select_throw; exact Hs].
  - intros Hall.
    assert (Hs : select (estimatedCalls swapCalls) = Throw noErrorMessage).
    { rewrite Hsel, (filter_all_success _ Hall). reflexivity. }
    split; [exact Hs | apply onSwap_select_throw; exact Hs].
Qed.

Lemma selection_failure_witness :
  @onSwap keccak_hasher (@Web3Reference.instance keccak_hasher)
    Fixture.constants
    (Fixture.revertingChain "swapExactETHForTokens" "TRANSFER_FAILED")
    (@Utils.codeHashMap Fixture.constants) Fixture.sender
    [Fixture.plainCall; Fixture.feeCall] = Throw estimationMessage.
Proof.
  refine (proj2 (proj1 (@selection_failure_throws keccak_hasher
           (@Web3Reference.instance keccak_hasher) Fixture.constants
           (Fixture.revertingChain "swapExactETHForTokens" "TRANSFER_FAILED")
           (@Utils.codeHashMap Fixture.constants) Fixture.sender
           [Fixture.plainCall; Fixture.feeCall] _)
           [FailedCall Fixture.plainCall _] Fixture.feeCall _ [] _ _)).
  - reflexivity.
  - reflexivity.
  - reflexivity.
Defined.

End Selection.

(** ** Diagnosis of a failed estimation *)

Section Diagnosis.

Import SwapCallback.

Lemma errorMessage_other r :
  r <> "SwapRouterV2: INSUFFICIENT_OUTPUT_AMOUNT" ->
  r <> "SwapRouterV2: EXCESSIVE_INPUT_AMOUNT" ->
  errorMessage (JS.Str r) = defaultMessage (JS.Str r).
Proof.
  intros H1 H2. unfold errorMessage.
  apply String.eqb_neq in H1, H2. rewrite H1, H2. reflexivity.
Qed.

(** C4 (amended). When the gas estimation of a candidate fails, its
    outcome is a failure whose message comes from the simulated call with
    the same arguments: the estimation-issue message when the simulated
    call succeeds; the slippage message when it reverts with exactly
    [SwapRouterV2: INSUFFICIENT_OUTPUT_AMOUNT] or
    [SwapRouterV2: EXCESSIVE_INPUT_AMOUNT]; and for any other reason
    string the default message with that string inside. *)
Theorem failed_estimation_diagnosis `{Chain} (call : SwapCall)
  (gasError : CallError) :
  estimateGas call (callOptions (value (parameters call))) =
    Rejected gasError ->
  (forall r,
      callStatic call (callOptions (value (parameters call))) =
        Fulfilled r ->
      estimate call = FailedCall call estimationMessage) /\
  (forall callError,
      callStatic call (callOptions (value (parameters call))) =
        Rejected callError ->
      estimate call = FailedCall call (errorMessage (reason callError)) /\
      (reason callError = JS.Str "SwapRouterV2: INSUFFICIENT_OUTPUT_AMOUNT" \/
       reason callError = JS.Str "SwapRouterV2: EXCESSIVE_INPUT_AMOUNT" ->
       errorMessage (reason callError) = slippageMessage) /\
      (forall r,
          reason callError = JS.Str r ->
          r <> "SwapRouterV2: INSUFFICIENT_OUTPUT_AMOUNT" ->
          r <> "SwapRouterV2: EXCESSIVE_INPUT_AMOUNT" ->
          errorMessage (reason callError) =
          ("The transaction cannot succeed due to error: " ++ r ++
           ". This is probably an issue with one of the tokens you are swapping.")%string)).
Proof.
  intros Hgas. split.
  - intros r Hcall. unfold estimate. rewrite Hgas, Hcall. reflexivity.
  - intros callError Hcall. split; [| split].
    + unfold estimate. rewrite Hgas, Hcall. reflexivity.
    + intros [-> | ->]; reflexivity.
    + intros r -> H1 H2. rewrite errorMessage_other by assumption.
      reflexivity.
Qed.

Lemma failed_estimation_witness :
  @estimate (Fixture.revertingChain "swapExactETHForTokens"
               "SwapRouterV2: INSUFFICIENT_OUTPUT_AMOUNT")
    Fixture.plainCall =
  FailedCall Fixture.plainCall slippageMessage.
Proof.
  pose proof (@failed_estimation_diagnosis
                (Fixture.revertingChain "swapExactETHForTokens"
                   "SwapRouterV2: INSUFFICIENT_OUTPUT_AMOUNT")
                Fixture.plainCall
                (Fixture.revert "gas required exceeds allowance") eq_refl)
    as [_ H].
  destruct (H (Fixture.revert "SwapRouterV2: INSUFFICIENT_OUTPUT_AMOUNT")
              eq_refl) as (He & Hk & _).
  rewrite He. rewrite Hk; [reflexivity | left; reflexivity].
Defined.

(** A reason of the form [...: INSUFFICIENT_OUTPUT_AMOUNT] with another
    prefix than [SwapRouterV2] gets the default message, not the slippage
    message. *)
Lemma other_prefix_not_slippage :
  let r := "UniswapV2Router: INSUFFICIENT_OUTPUT_AMOUNT" in
  (exists prefix, r = (prefix ++ ": INSUFFICIENT_OUTPUT_AMOUNT")%string) /\
  @estimate (Fixture.revertingChain "swapExactETHForTokens" r)
    Fixture.plainCall =
    FailedCall Fixture.plainCall (defaultMessage (JS.Str r)) /\
  defaultMessage (JS.Str r) <> slippageMessage.
Proof.
  split; [exists "UniswapV2Router"; reflexivity |].
  split; [reflexivity | discriminate].
Qed.

End Diagnosis.

(** ** The trade parameter encoder *)

Section Encoder.

Import Utils SwapCallback Spec.
Context `{Hasher} `{Constants} `{Sdk}.

Lemma useSwapCallArguments_absent (h : HookState) (trade : option Trade)
  (allowedSlippage : option JS.number)
  (recipientAddressOrName : option string) :
  useTransactionDeadline h = None ->
  useSwapCallArguments h trade allowedSlippage recipientAddressOrName = Ok [].
Proof.
  unfold useSwapCallArguments. intros ->. cbn [rbind].
  destruct trade, (present (the_recipient h recipientAddressOrName)),
    (library h), (present (account h)), (present_number (chainId h));
    reflexivity.
Qed.

Lemma useSwapCallArguments_overflow (h : HookState) (trade : option Trade)
  (allowedSlippage : option JS.number)
  (recipientAddressOrName : option string) (d : Z) :
  useTransactionDeadline h = Some d ->
  Ethers.MAX_SAFE < Z.abs d ->
  useSwapCallArguments h trade allowedSlippage recipientAddressOrName =
  Throw "overflow".
Proof.
  unfold useSwapCallArguments, Ethers.toNumber. intros -> Hd.
  replace (Z.abs d <=? Ethers.MAX_SAFE) with false by lia. reflexivity.
Qed.

Lemma useSwapCallArguments_missing (h : HookState) (trade : option Trade)
  (allowedSlippage : option JS.number)
  (recipientAddressOrName : option string) (d : Z) :
  trade = None \/
  present (the_recipient h recipientAddressOrName) = None \/
  library h = None \/ present (account h) = None \/
  present_number (chainId h) = None ->
  useTransactionDeadline h = Some d ->
  Z.abs d <= Ethers.MAX_SAFE ->
  useSwapCallArguments h trade allowedSlippage recipientAddressOrName = Ok [].
Proof.
  unfold useSwapCallArguments, Ethers.toNumber. intros Hmissing -> Hd.
  replace (Z.abs d <=? Ethers.MAX_SAFE) with true by lia. cbn [rbind].
  destruct trade, (present (the_recipient h recipientAddressOrName)),
    (library h), (present (account h)), (present_number (chainId h));
    try reflexivity.
  destruct Hmissing as [? | [? | [? | [? | ?]]]]; discriminate.
Qed.

Lemma present_absent (v : option string) :
  v = None \/ v = Some EmptyString -> present v = None.
Proof. intros [-> | ->]; reflexivity. Qed.

(** C3 (amended). With a trade, a recipient, a deadline, an account, a
    chain id and a provider all there, the deadline a safe integer, the
    allowed slippage an integer, the router address of the configuration
    a valid non-zero address and the SDK encoding the trade,
    [useSwapCallArguments] returns two candidates for an exact-input
    trade, the plain one first and the fee-on-transfer one second, and
    one candidate for an exact-output trade; each is a call on the router
    signed by the account, with the recipient, the slippage and the
    deadline in its options.  Without a trade, a recipient or a deadline
    it returns the empty list, provided that a deadline which is there is
    a safe integer; for a deadline that is not, it throws, whatever else
    is there or missing. *)
Theorem useSwapCallArguments_candidates (h : HookState)
  (trade : option Trade) (allowedSlippage : option JS.number)
  (recipientAddressOrName : option string) :
  let recipient :=
    match recipientAddressOrName with
    | None => account h
    | Some name => useENS_address h (Some name)
    end in
  (forall t to lib acct chain d bips address plain,
      trade = Some t ->
      recipient = Some to -> JS.truthy to = true ->
      library h = Some lib ->
      account h = Some acct -> JS.truthy acct = true ->
      chainId h = Some chain -> chain <> 0 ->
      useTransactionDeadline h = Some d ->
      Z.abs d <= Ethers.MAX_SAFE ->
      JS.integer_value
        match allowedSlippage with
        | Some x => x
        | None => JS.number_of_Z INITIAL_ALLOWED_SLIPPAGE
        end = Some bips ->
      isAddress ROUTER_ADDRESS = Some address ->
      ROUTER_ADDRESS <> AddressZero ->
      let router :=
        {| contract_address := ROUTER_ADDRESS;
           contract_abi := "IUniswapV2Router02";
           contract_runner := UseSigner lib acct |} in
      let options fee :=
        {| feeOnTransfer := fee;
           allowedSlippage :=
             {| numerator := bips; denominator := BIPS_BASE |};
           recipient := to;
           deadline := d |} in
      swapCallParameters t (options false) = Ok plain ->
      match tradeType t with
      | EXACT_INPUT =>
          forall fee,
            swapCallParameters t (options true) = Ok fee ->
            useSwapCallArguments h trade allowedSlippage
              recipientAddressOrName =
            Ok [ {| contract := router; parameters := plain |};
                 {| contract := router; parameters := fee |} ]
      | EXACT_OUTPUT =>
          useSwapCallArguments h trade allowedSlippage
            recipientAddressOrName =
          Ok [ {| contract := router; parameters := plain |} ]
      end) /\
  (trade = None \/ recipient = None \/ recipient = Some EmptyString \/
   useTransactionDeadline h = None ->
   (forall d, useTransactionDeadline h = Some d ->
              Z.abs d <= Ethers.MAX_SAFE) ->
   useSwapCallArguments h trade allowedSlippage recipientAddressOrName =
   Ok []) /\
  (forall d,
      useTransactionDeadline h = Some d ->
      Ethers.MAX_SAFE < Z.abs d ->
      useSwapCallArguments h trade allowedSlippage recipientAddressOrName =
      Throw "overflow").
Proof.
  intros recipient.
  assert (Hrecipient : the_recipient h recipientAddressOrName = recipient)
    by (unfold the_recipient, recipient;
        destruct recipientAddressOrName; reflexivity).
  split; [| split].
  - intros t to lib acct chain d bips address plain
      -> Hto Htruthy Hlib Hacct Hsigner Hchain Hnonzero Hd Hsafe Hbips
      Hrouter Hzero router options Hplain.
    unfold useSwapCallArguments. rewrite Hrecipient, Hto, Hlib, Hacct, Hchain, Hd.
    unfold Ethers.toNumber, present, present_number, getRouterContract,
      getContract, getProviderOrSigner, JSBI_BigInt.
    rewrite Htruthy, Hsigner, Hrouter, Hbips.
    replace (Z.abs d <=? Ethers.MAX_SAFE) with true by lia.
    replace (chain =? 0) with false by lia.
    apply String.eqb_neq in Hzero. rewrite Hzero. cbn [rbind].
    unfold options_of. fold (options false). fold (options true).
    rewrite Hplain. cbn [rbind].
    destruct (tradeType t).
    + intros fee Hfee. rewrite Hfee. cbn [rbind]. rewrite ?Hsigner.
      reflexivity.
    + cbn [rbind]. rewrite ?Hsigner. reflexivity.
  - intros Hmissing Hsafe.
    destruct (useTransactionDeadline h) as [d |] eqn:Hd.
    + apply (useSwapCallArguments_missing h trade _ _ d);
        [| exact Hd | apply Hsafe; reflexivity].
      rewrite Hrecipient.
      destruct Hmissing as [? | [? | [? | ?]]];
        [auto | right; left; apply present_absent; auto
        | right; left; apply present_absent; auto | discriminate].
    + apply useSwapCallArguments_absent. exact Hd.
  - intros d Hd Hlate.
    apply (useSwapCallArguments_overflow h trade _ _ d Hd Hlate).
Qed.

End Encoder.

Lemma useSwapCallArguments_witness :
  @SwapCallback.useSwapCallArguments keccak_hasher Fixture.constants
    Fixture.sdk Fixture.hooks (Some Fixture.exactInput) None None =
  Ok [ {| contract := Fixture.routerContract;
          parameters :=
            Fixture.callParameters Fixture.exactInput
              {| feeOnTransfer := false;
                 allowedSlippage := {| numerator := 50; denominator := 10000 |};
                 recipient := Fixture.sender; deadline := 1700000000 |} |};
       {| contract := Fixture.routerContract;
          parameters :=
            Fixture.callParameters Fixture.exactInput
              {| feeOnTransfer := true;
                 allowedSlippage := {| numerator := 50; denominator := 10000 |};
                 recipient := Fixture.sender; deadline := 1700000000 |} |} ].
Proof.
  refine (proj1 (@useSwapCallArguments_candidates keccak_hasher
     Fixture.constants Fixture.sdk Fixture.hooks (Some Fixture.exactInput)
     None None)
     Fixture.exactInput Fixture.sender (Utils.provider "injected")
     Fixture.sender 8081 1700000000 50 Fixture.router _
     eq_refl eq_refl eq_refl eq_refl eq_refl eq_refl eq_refl _ eq_refl _
     eq_refl _ _ eq_refl _ eq_refl).
  - discriminate.
  - vm_compute. discriminate.
  - vm_compute. reflexivity.
  - discriminate.
Defined.

(** A deadline of 2^53 makes the hook throw although the trade is
    missing; with a recipient name that resolves to nothing and a safe
    deadline the list is empty. *)
Lemma useSwapCallArguments_unsafe_deadline :
  @SwapCallback.useSwapCallArguments keccak_hasher Fixture.constants
    Fixture.sdk Fixture.lateHooks None None None = Throw "overflow" /\
  @SwapCallback.useSwapCallArguments keccak_hasher Fixture.constants
    Fixture.sdk Fixture.lateHooks (Some Fixture.exactInput) None None =
    Throw "overflow" /\
  @SwapCallback.useSwapCallArguments keccak_hasher Fixture.constants
    Fixture.sdk Fixture.hooks None None None = Ok [].
Proof. repeat split; vm_compute; reflexivity. Qed.

Example useSwapCallArguments_exactOutput :
  option_map (@List.length SwapCall)
    (match @SwapCallback.useSwapCallArguments keccak_hasher Fixture.constants
             Fixture.sdk Fixture.hooks (Some Fixture.exactOutput) None None with
     | Ok l => Some l
     | Throw _ => None
     end) = Some 1%nat.
Proof. vm_compute. reflexivity. Qed.

(** ** Gas margin and gas limit *)

Section Gas.

Import Utils SwapCallback Spec.

Lemma quot_floor a : 0 <= a -> Z.quot a 10000 = a / 10000.
Proof. intros Ha. apply Z.quot_div_nonneg; lia. Qed.

Lemma calculateGasMargin_floor e :
  0 <= e ->
  calculateGasMargin e = e * 11000 / 10000 /\ e <= calculateGasMargin e.
Proof.
  intros He. unfold calculateGasMargin.
  replace (10000 + 1000) with 11000 by reflexivity.
  rewrite quot_floor by lia. split; [reflexivity |].
  apply Z.div_le_lower_bound; lia.
Qed.

Lemma testModeTransaction_gasLimit `{Hasher} `{Web3} `{Constants} `{Chain}
  m args response tx :
  testModeTransaction m args response = Ok tx -> tx_gasLimit tx = 300000.
Proof.
  unfold testModeTransaction. intros Htx.
  destruct (nth_error args 1) as [path |]; [| discriminate].
  destruct (index_arg path 0) as [a1 |]; [| discriminate].
  destruct (index_arg path 1) as [a2 |]; [| discriminate].
  destruct (response_from response) as [| | sender]; try discriminate.
  destruct (fst (generateAccessList m _)) as [al | e]; [| discriminate].
  simpl in Htx.
  destruct (response_value response) as [v |]; [| discriminate].
  destruct (eth_getTransactionCount _) as [nonce | e]; [| discriminate].
  injection Htx as <-. reflexivity.
Qed.

(** C2 (amended). For a selected estimate [e >= 0], the gas limit handed
    to [populateTransaction] is [e * 11000 / 10000] rounded down, never
    less than [e], and 110000 for 100000; the transaction the test mode
    then serialises, signs and sends carries the fixed gas limit 300000
    whatever [e] is. *)
Theorem gas_limit_margin_then_fixed `{Hasher} `{Web3} `{Constants} `{Chain}
  (m : CodeHashMap) (account : string) (swapCalls : list SwapCall)
  (call : SwapCall) (e : Z) :
  select (estimatedCalls swapCalls) = Ok (call, e) ->
  0 <= e ->
  let o := overrides e (value (parameters call)) account in
  gasLimit o = e * 11000 / 10000 /\
  e <= gasLimit o /\
  (e = 100000 -> gasLimit o = 110000) /\
  (forall s,
      submit m account swapCalls = Ok s ->
      populateTransaction call o = Fulfilled (populated s) /\
      forall tx hash,
        sent s = Some (Ok (tx, hash)) -> tx_gasLimit tx = 300000).
Proof.
  intros Hsel He o.
  destruct (calculateGasMargin_floor e He) as [Hfloor Hle].
  split; [exact Hfloor |]. split; [exact Hle |]. split.
  { intros ->. reflexivity. }
  intros s Hsub.
  unfold submit in Hsub. rewrite Hsel in Hsub. simpl in Hsub. fold o in Hsub.
  destruct (populateTransaction call o) as [response | err] eqn:Hpop.
  - injection Hsub as <-. simpl. split; [reflexivity |].
    intros tx hash Hsent.
    destruct ethereum; [| discriminate].
    injection Hsent as Htest.
    unfold testMode in Htest.
    destruct (testModeTransaction m (args (parameters call)) response)
      as [tx0 | msg] eqn:Htx; [| discriminate].
    simpl in Htest.
    destruct (signAndSend tx0); [| discriminate].
    injection Htest as -> _.
    exact (testModeTransaction_gasLimit _ _ _ _ Htx).
  - destruct (match code err with Some c => c =? 4001 | None => false end);
      discriminate.
Qed.

Lemma gas_limit_witness :
  gasLimit (@overrides (Fixture.quietChain 100000) 100000
              (value (parameters Fixture.plainCall)) Fixture.sender) = 110000.
Proof.
  refine (proj1 (proj2 (proj2
    (@gas_limit_margin_then_fixed keccak_hasher
       (@Web3Reference.instance keccak_hasher) Fixture.constants
       (Fixture.quietChain 100000) (@codeHashMap Fixture.constants)
       Fixture.sender [Fixture.plainCall; Fixture.feeCall]
       Fixture.plainCall 100000 _ _))) eq_refl).
  - reflexivity.
  - lia.
Defined.

(** The transaction sent for an estimate of 100000 has gas limit 300000,
    not 110000; for an estimate of 400000 it has gas limit 300000, less
    than the estimate. *)
Lemma submitted_gas_limit_is_fixed :
  (select (@estimatedCalls (Fixture.quietChain 100000)
             [Fixture.plainCall; Fixture.feeCall]) =
     Ok (Fixture.plainCall, 100000) /\
   sent_gasLimit
     (@submit keccak_hasher (@Web3Reference.instance keccak_hasher)
        Fixture.constants (Fixture.quietChain 100000)
        (@codeHashMap Fixture.constants) Fixture.sender
        [Fixture.plainCall; Fixture.feeCall]) = Some 300000 /\
   300000 <> 100000 * 11000 / 10000) /\
  (select (@estimatedCalls (Fixture.quietChain 400000)
             [Fixture.plainCall; Fixture.feeCall]) =
     Ok (Fixture.plainCall, 400000) /\
   sent_gasLimit
     (@submit keccak_hasher (@Web3Reference.instance keccak_hasher)
        Fixture.constants (Fixture.quietChain 400000)
        (@codeHashMap Fixture.constants) Fixture.sender
        [Fixture.plainCall; Fixture.feeCall]) = Some 300000 /\
   300000 < 400000).
Proof.
  split;
    (split; [reflexivity
            | split; [vm_compute; reflexivity | vm_compute; congruence]]).
Qed.

End Gas.

(** ** Slippage amounts *)

Section Slippage.

Import Utils.

Lemma calculateSlippageAmount_integer (raw s : Z) :
  0 <= s <= 10000 ->
  calculateSlippageAmount raw (JS.number_of_Z s) =
  Ok (Z.quot (raw * (10000 - s)) 10000, Z.quot (raw * (10000 + s)) 10000).
Proof.
  intros Hs.
  unfold calculateSlippageAmount, JS.number_of_Z, JS.number_lt,
    JS.number_sub, JS.number_add, JS.number_opp, JSBI_BigInt,
    JS.integer_value.
  rewrite !Z.mul_1_r. change (1 * 1)%positive with 1%positive.
  replace (s <? 0) with false by lia.
  replace (10000 <? s) with false by lia. cbn [orb].
  rewrite !Z.mod_1_r, !Z.div_1_r. cbn [Z.eqb rbind].
  replace (10000 + - s) with (10000 - s) by lia. reflexivity.
Qed.

Lemma calculateSlippageAmount_guard (raw s : Z) :
  s < 0 \/ s > 10000 ->
  calculateSlippageAmount raw (JS.number_of_Z s) =
  Throw ("Unexpected slippage value: " ++
         JS.number_toString (JS.number_of_Z s))%string.
Proof.
  intros Hs.
  unfold calculateSlippageAmount, JS.number_of_Z, JS.number_lt.
  rewrite !Z.mul_1_r.
  destruct (s <? 0) eqn:H1; [reflexivity |].
  replace (10000 <? s) with true by lia. reflexivity.
Qed.

(** C10 (amended). For a slippage that is an integer,
    [calculateSlippageAmount] throws exactly when the slippage is below 0
    or above 10000; for an integer slippage in between (and a raw amount
    that is not negative, as every [CurrencyAmount] is) it returns the
    pair of [raw * (10000 - slippage) / 10000] and
    [raw * (10000 + slippage) / 10000], both rounded down, the first at
    most [raw] and the second at least [raw]. *)
Theorem calculateSlippageAmount_spec (raw slippage : Z) :
  0 <= raw ->
  (is_ok (calculateSlippageAmount raw (JS.number_of_Z slippage)) = false <->
   slippage < 0 \/ slippage > 10000) /\
  (0 <= slippage <= 10000 ->
   calculateSlippageAmount raw (JS.number_of_Z slippage) =
     Ok (raw * (10000 - slippage) / 10000,
         raw * (10000 + slippage) / 10000) /\
   raw * (10000 - slippage) / 10000 <= raw
     <= raw * (10000 + slippage) / 10000).
Proof.
  intros Hraw. split.
  - split.
    + intros Hthrow.
      destruct (Z_lt_le_dec slippage 0) as [| Hlow]; [auto |].
      destruct (Z_le_gt_dec slippage 10000) as [Hhigh |]; [| auto].
      rewrite calculateSlippageAmount_integer in Hthrow by lia.
      discriminate.
    + intros Hout. rewrite calculateSlippageAmount_guard by exact Hout.
      reflexivity.
  - intros Hs. rewrite calculateSlippageAmount_integer by exact Hs.
    rewrite !quot_floor by nia. split; [reflexivity |].
    split.
    + apply Z.div_le_upper_bound; nia.
    + apply Z.div_le_lower_bound; nia.
Qed.

Lemma calculateSlippageAmount_witness :
  calculateSlippageAmount 1000001 (JS.number_of_Z 50) =
  Ok (995000, 1005001).
Proof.
  destruct (calculateSlippageAmount_spec 1000001 50 ltac:(lia)) as [_ H].
  destruct (H ltac:(lia)) as [-> _]. reflexivity.
Defined.

(** A slippage of one half and a slippage that is NaN pass the test on
    the range, and [JSBI.BigInt] then throws. *)
Lemma calculateSlippageAmount_fraction_throws :
  JS.number_lt (JS.Real 1 2) (JS.number_of_Z 0) = false /\
  JS.number_lt (JS.number_of_Z 10000) (JS.Real 1 2) = false /\
  calculateSlippageAmount 1000001 (JS.Real 1 2) =
    Throw "The number 9999.5 cannot be converted to BigInt because it is not an integer" /\
  calculateSlippageAmount 1000001 JS.NaN =
    Throw "The number NaN cannot be converted to BigInt because it is not an integer".
Proof. repeat split; vm_compute; reflexivity. Qed.

Example calculateSlippageAmount_messages :
  calculateSlippageAmount 1000001 (JS.number_of_Z 10001) =
    Throw "Unexpected slippage value: 10001" /\
  calculateSlippageAmount 1000001 (JS.number_of_Z (-1)) =
    Throw "Unexpected slippage value: -1" /\
  calculateSlippageAmount 1000001 (JS.Real (-1) 2) =
    Throw "Unexpected slippage value: -0.5" /\
  calculateSlippageAmount 1000001 (JS.Infinity false) =
    Throw "Unexpected slippage value: Infinity".
Proof. repeat split; vm_compute; reflexivity. Qed.

End Slippage.

(** ** The code-hash map *)

Section Cache.

Import Utils.

Lemma getContractCodeHash_miss (m : CodeHashMap) (a : string) :
  m !! a = None -> getContractCodeHash m a = (JS.Undefined, m).
Proof.
  intros H. unfold getContractCodeHash, map_has. rewrite H. reflexivity.
Qed.

Lemma getContractCodeHash_hit (m : CodeHashMap) (a v : string) :
  m !! a = Some v -> getContractCodeHash m a = (JS.Str v, m).
Proof.
  intros H. unfold getContractCodeHash, map_has, map_get. rewrite H.
  reflexivity.
Qed.

(** C9 (amended). The token-to-code-hash map is filled at load time with
    the two known tokens and nothing else; a lookup of a key that is
    there returns the stored hash, a lookup of any other key returns
    nothing, and neither changes the map: there is no fetch on demand. *)
Theorem codeHashMap_static `{Constants} :
  (codeHashMap !! daiAddress ammAddresses = Some (daiCodeHash ammAddresses) /\
   (wethAddress ammAddresses <> daiAddress ammAddresses ->
    codeHashMap !! wethAddress ammAddresses =
    Some (wethCodeHash ammAddresses)) /\
   (forall a, a <> wethAddress ammAddresses ->
              a <> daiAddress ammAddresses ->
              codeHashMap !! a = None)) /\
  (forall (m : CodeHashMap) a v,
      m !! a = Some v -> getContractCodeHash m a = (JS.Str v, m)) /\
  (forall (m : CodeHashMap) a,
      m !! a = None -> getContractCodeHash m a = (JS.Undefined, m)).
Proof.
  split; [| split].
  - unfold codeHashMap. split; [| split].
    + apply lookup_insert_eq.
    + intros Hne. rewrite lookup_insert_ne by congruence.
      apply lookup_insert_eq.
    + intros a H1 H2. rewrite !lookup_insert_ne by congruence.
      apply lookup_empty.
  - apply getContractCodeHash_hit.
  - apply getContractCodeHash_miss.
Qed.

(** A token that was not loaded at start: the lookup gives [undefined]
    and the map stays as it was. *)
Lemma getContractCodeHash_no_fetch :
  @codeHashMap Fixture.constants !! Fixture.USDC = None /\
  getContractCodeHash (@codeHashMap Fixture.constants) Fixture.USDC =
    (JS.Undefined, @codeHashMap Fixture.constants).
Proof.
  assert (H : @codeHashMap Fixture.constants !! Fixture.USDC = None).
  { unfold codeHashMap. simpl. rewrite !lookup_insert_ne by discriminate.
    apply lookup_empty. }
  split; [exact H | apply getContractCodeHash_miss; exact H].
Qed.

End Cache.

(** ** The pair address *)

Section PairAddress.

Import Utils.

(** C7. The pair address does not depend on the order of the two token
    arguments: they are put in ascending order before anything is
    encoded, so both calls run the same statements on the same ordered
    pair. *)
Theorem getPair_order_independent `{Web3}
  (tokenA tokenB factory initCodeHash : string) :
  getPair tokenA tokenB factory initCodeHash =
  getPair tokenB tokenA factory initCodeHash /\
  exists token0 token1,
    ((token0, token1) = (tokenA, tokenB) \/
     (token0, token1) = (tokenB, tokenA)) /\
    JS.lt token1 token0 = false /\
    getPair tokenA tokenB factory initCodeHash =
    match getPair_try token0 token1 factory initCodeHash with
    | Ok v => v
    | Throw _ => JS.Null
    end.
Proof.
  unfold getPair. split.
  - destruct (JS.lt tokenA tokenB) eqn:Hab, (JS.lt tokenB tokenA) eqn:Hba.
    + rewrite (lt_asym _ _ Hab) in Hba. discriminate.
    + reflexivity.
    + reflexivity.
    + rewrite (lt_total _ _ Hab Hba). reflexivity.
  - destruct (JS.lt tokenA tokenB) eqn:Hab.
    + exists tokenA, tokenB. split; [left; reflexivity |].
      split; [apply lt_asym; exact Hab | reflexivity].
    + exists tokenB, tokenA. split; [right; reflexivity |].
      split; [exact Hab | reflexivity].
Qed.

End PairAddress.

(** ** The digest of Keccak-256 has 32 bytes *)

Section KeccakSize.

Import Keccak.

Lemma round_length st rc : List.length (round st rc) = 25%nat.
Proof.
  unfold round, chi.
  destruct (map _ coords) as [| a l] eqn:Hm.
  - apply (f_equal (@List.length N)) in Hm. rewrite length_map in Hm.
    discriminate.
  - simpl. apply (f_equal (@List.length N)) in Hm. rewrite length_map in Hm.
    simpl in Hm. lia.
Qed.

Lemma fold_round_length rcs : forall st,
  List.length st = 25%nat -> List.length (fold_left round rcs st) = 25%nat.
Proof.
  induction rcs as [| rc rcs IH]; intros st Hst; [exact Hst |].
  simpl. apply IH. apply round_length.
Qed.

Lemma xor_into_length st : forall block,
  List.length (xor_into st block) = List.length st.
Proof.
  induction st as [| a st IH]; intros block; [reflexivity |].
  destruct block as [| b block]; [reflexivity |].
  simpl. f_equal. apply IH.
Qed.

Lemma absorb_length blocks : forall st bs,
  List.length st = 25%nat -> List.length (absorb blocks st bs) = 25%nat.
Proof.
  induction blocks as [| blocks IH]; intros st bs Hst; [exact Hst |].
  cbn [absorb]. apply IH. unfold permute. apply fold_round_length.
  rewrite xor_into_length. exact Hst.
Qed.

Lemma le_bytes_length len : forall n, List.length (le_bytes len n) = len.
Proof.
  induction len as [| len IH]; intros n; [reflexivity |].
  simpl. f_equal. apply IH.
Qed.

Lemma keccak256_length msg : List.length (keccak256 msg) = 32%nat.
Proof.
  unfold keccak256.
  set (st := absorb _ _ _).
  assert (Hst : List.length st = 25%nat)
    by (apply absorb_length; reflexivity).
  destruct st as [| a [| b [| c [| d st]]]]; try discriminate.
  cbn [firstn map concat]. rewrite !length_app, !le_bytes_length.
  reflexivity.
Qed.
End KeccakSize.

(** ** Storage keys *)

Section StorageKeys.

Import Utils Spec Ethers.
Context `{Hasher}.
Hypothesis digest_size : digest256 _.

Lemma digest_nonempty msg : keccak256 msg <> [].
Proof.
  intros Hnil. pose proof (digest_size msg) as Hlen.
  rewrite Hnil in Hlen. discriminate.
Qed.

Lemma digest_value_bound msg :
  0 <= Z.of_N (Hex.be_value (keccak256 msg)) < 2 ^ 256.
Proof.
  pose proof (be_value_bound (keccak256 msg)) as Hb.
  rewrite digest_size in Hb.
  change (256 ^ N.of_nat 32)%N with (Z.to_N (2 ^ 256)) in Hb.
  assert (0 < 2 ^ 256) by (apply Z.pow_pos_nonneg; lia).
  lia.
Qed.

Lemma pack_uint_digest msg :
  is_uint (hexlify (keccak256 msg)).
Proof.
  unfold is_uint, pack_uint, BigNumber_from.
  rewrite BigNumber_from_hexlify by apply digest_nonempty.
  cbn [rbind].
  pose proof (digest_value_bound msg) as Hb.
  assert (0 < 2 ^ 256) by (apply Z.pow_pos_nonneg; lia).
  replace (- 2 ^ 256 <? Z.of_N (Hex.be_value (keccak256 msg))) with true by lia.
  replace (Z.of_N (Hex.be_value (keccak256 msg)) <? 2 ^ 256) with true by lia.
  eexists. reflexivity.
Qed.

Lemma solidityKeccak256_one v packed :
  pack_uint v = Ok packed ->
  solidityKeccak256 [v] = Ok (hexlify (keccak256 packed)).
Proof.
  intros Hv. unfold solidityKeccak256. cbn [pack_uints].
  rewrite Hv. cbn [rbind]. rewrite app_nil_r. reflexivity.
Qed.

Lemma solidityKeccak256_two a b :
  (exists pa, pack_uint a = Ok pa) ->
  (exists pb, pack_uint b = Ok pb) ->
  exists k, solidityKeccak256 [a; b] = Ok k /\ is_uint k.
Proof.
  intros [pa Ha] [pb Hb]. unfold solidityKeccak256. cbn [pack_uints].
  rewrite Ha, Hb. cbn [rbind].
  eexists. split; [reflexivity | apply pack_uint_digest].
Qed.

Lemma getNestedStorageKey_ok key1 key2 slot :
  is_uint key1 -> is_uint key2 -> is_uint slot ->
  exists k, getNestedStorageKey key1 key2 slot = Ok k.
Proof.
  intros H1 H2 Hs. unfold getNestedStorageKey.
  destruct (solidityKeccak256_two (JS.Str key1) (JS.Str slot) H1 Hs)
    as (first & -> & Hfirst).
  cbn [rbind].
  destruct (solidityKeccak256_two (JS.Str key2) (JS.Str first) H2 Hfirst)
    as (k & -> & _).
  eexists. reflexivity.
Qed.

Lemma getArrayItemKey_value (index : Z) (slotOfArray : string)
  (packed : list byte) :
  pack_uint (JS.Str slotOfArray) = Ok packed ->
  0 <= index < MAX_SAFE ->
  let hash := Z.of_N (Hex.be_value (keccak256 packed)) in
  exists key,
    getArrayItemKey index slotOfArray = Ok key /\
    BigNumber_from_string key = Ok (hash + index) /\
    (index = 0 -> key = hexlify (keccak256 packed)).
Proof.
  intros Hslot Hindex hash. unfold getArrayItemKey.
  rewrite (solidityKeccak256_one _ _ Hslot). cbn [rbind].
  pose proof (digest_value_bound packed) as Hb. fold hash in Hb.
  destruct (index >? 0) eqn:Hpos.
  - unfold BigNumber_from_number.
    replace (MAX_SAFE <=? index) with false by lia.
    replace (index <=? - MAX_SAFE) with false by (unfold MAX_SAFE in *; lia).
    cbn [orb rbind].
    rewrite BigNumber_from_hexlify by apply digest_nonempty.
    cbn [rbind]. fold hash.
    eexists. split; [reflexivity |]. split.
    + apply BigNumber_from_toHexString. lia.
    + intros ->. discriminate.
  - assert (index = 0) as -> by lia.
    eexists. split; [reflexivity |]. split.
    + rewrite BigNumber_from_hexlify by apply digest_nonempty.
      fold hash. f_equal. lia.
    + reflexivity.
Qed.
End StorageKeys.

(** ** The key of an array element *)

Section ArrayKey.

Import Utils Spec Ethers.

(** C8 (amended). For a slot that packs as a [uint] and an index
    [0 <= index < 2^53 - 1], [getArrayItemKey] returns a key whose value
    is [hash(slot) + index] as a sum of unbounded integers; for index 0
    the key is the hash itself.  No reduction modulo 2^256 is made: the
    value is the 256-bit wrapping sum exactly when
    [hash(slot) + index < 2^256].  For an index of [2^53 - 1] or more the
    call throws. *)
Theorem getArrayItemKey_unbounded_sum `{Hasher} (index : Z)
  (slotOfArray : string) (packed : list byte) :
  digest256 _ ->
  pack_uint (JS.Str slotOfArray) = Ok packed ->
  let hash := Z.of_N (Hex.be_value (keccak256 packed)) in
  (0 <= index < MAX_SAFE ->
   exists key,
     getArrayItemKey index slotOfArray = Ok key /\
     BigNumber_from_string key = Ok (hash + index) /\
     (index = 0 -> key = hexlify (keccak256 packed)) /\
     (hash + index = wrapping_add hash index <-> hash + index < 2 ^ 256)) /\
  (MAX_SAFE <= index -> getArrayItemKey index slotOfArray = Throw "overflow").
Proof.
  intros Hd Hslot hash. split.
  - intros Hindex.
    destruct (getArrayItemKey_value Hd index slotOfArray packed Hslot Hindex)
      as (key & Hkey & Hvalue & Hzero).
    exists key. repeat split; auto.
    + unfold wrapping_add. intros Heq. rewrite Heq.
      apply Z.mod_pos_bound. apply Z.pow_pos_nonneg; lia.
    + intros Hlt. unfold wrapping_add. symmetry. apply Z.mod_small.
      pose proof (digest_value_bound Hd packed) as Hb. fold hash in Hb. lia.
  - intros Hindex. unfold getArrayItemKey.
    rewrite (solidityKeccak256_one _ _ Hslot). cbn [rbind].
    replace (index >? 0) with true by (unfold MAX_SAFE in Hindex; lia).
    unfold BigNumber_from_number.
    replace (MAX_SAFE <=? index) with true by lia. reflexivity.
Qed.

Lemma getArrayItemKey_witness :
  exists key,
    @getArrayItemKey keccak_hasher 1 "0x3" = Ok key /\
    BigNumber_from_string key =
    Ok (Z.of_N (Hex.be_value (Keccak.keccak256 (Hex.be_bytes 32 3))) + 1).
Proof.
  destruct (proj1 (@getArrayItemKey_unbounded_sum keccak_hasher 1 "0x3"
                     (Hex.be_bytes 32 3) keccak256_length eq_refl)
              ltac:(unfold MAX_SAFE; lia))
    as (key & Hkey & Hvalue & _).
  exists key. split; [exact Hkey | exact Hvalue].
Defined.

(** An index of 2^53 makes [BigNumber.from] throw; and where the digest
    of the slot is 2^256 - 1, index 1 gives the key 2^256 on 33 bytes,
    while the wrapping sum is 0. *)
Lemma getArrayItemKey_not_wrapping :
  @getArrayItemKey keccak_hasher (2 ^ 53) "0x3" = Throw "overflow" /\
  (Z.of_N (Hex.be_value (@keccak256 Fixture.saturatedHasher
                           (Hex.be_bytes 32 3))) = 2 ^ 256 - 1 /\
   @getArrayItemKey Fixture.saturatedHasher 1 "0x3" = Ok Fixture.top_key /\
   BigNumber_from_string Fixture.top_key = Ok (2 ^ 256) /\
   wrapping_add (2 ^ 256 - 1) 1 = 0).
Proof.
  split; [vm_compute; reflexivity |].
  repeat split; vm_compute; reflexivity.
Qed.
End ArrayKey.

(** ** The access list *)

Section AccessList.

Import Utils Spec Ethers.
Context `{Hasher} `{Web3} `{Constants}.

Lemma is_uint_literals :
  is_uint "0x0" /\ is_uint "0x1" /\ is_uint "0x2" /\ is_uint "0x3" /\
  is_uint ("0x" ++ JS.repeat_char "0" 40)%string.
Proof. repeat split; eexists; reflexivity. Qed.

Ltac step_rbind H :=
  match type of H with
  | rbind ?r _ = Ok _ =>
      let E := fresh "E" in
      destruct r eqn:E; cbn [rbind] in H; [| discriminate H]
  end.

Lemma accessList_of_shape (m : CodeHashMap) (t : TradeAddresses) al :
  accessList_of m t = Ok al ->
  map fst al =
    [getPair (address1 t) (address2 t) (factoryAddress t)
       (codeHash ammAddresses);
     JS.Str (address1 t); JS.Str (address2 t); JS.Str (factoryAddress t)].
Proof.
  unfold accessList_of. cbv zeta. intros Hal.
  repeat step_rbind Hal.
  injection Hal as <-. reflexivity.
Qed.
End AccessList.

Section AccessListTotal.

Import Utils Spec Ethers.
Context `{Hasher} `{Web3} `{Constants}.

Lemma accessList_of_returns (m : CodeHashMap) (t : TradeAddresses) pair :
  digest256 _ ->
  is_uint (from t) -> is_uint (routerAddress t) ->
  is_uint (address1 t) -> is_uint (address2 t) ->
  getPair (address1 t) (address2 t) (factoryAddress t)
    (codeHash ammAddresses) = JS.Str pair ->
  is_uint pair ->
  exists al, accessList_of m t = Ok al.
Proof.
  intros Hd Hfrom Hrouter Ha1 Ha2 Hpair Hp.
  destruct is_uint_literals as (U0 & U1 & U2 & U3 & Uz).
  unfold accessList_of. cbv zeta. rewrite Hpair.
  destruct (solidityKeccak256_two Hd (JS.Str (from t)) (JS.Str "0x1")
              Hfrom U1) as (k1 & -> & Hk1). cbn [rbind].
  destruct (solidityKeccak256_two Hd _ (JS.Str "0x1") Uz U1)
    as (k2 & -> & Hk2). cbn [rbind].
  destruct (solidityKeccak256_two Hd (JS.Str (routerAddress t)) (JS.Str k1)
              Hrouter Hk1) as (k3 & -> & Hk3). cbn [rbind].
  destruct (getNestedStorageKey_ok Hd (address1 t) (address2 t) "0x2"
              Ha1 Ha2 U2) as (k4 & ->). cbn [rbind].
  destruct (getNestedStorageKey_ok Hd (address2 t) (address1 t) "0x2"
              Ha2 Ha1 U2) as (k5 & ->). cbn [rbind].
  destruct U3 as [p3 Hp3].
  destruct (getArrayItemKey_value Hd 1 "0x3" p3 Hp3
              ltac:(unfold MAX_SAFE; lia)) as (k6 & -> & _). cbn [rbind].
  destruct (solidityKeccak256_two Hd (JS.Str (routerAddress t)) (JS.Str "0x3")
              Hrouter (ex_intro _ p3 Hp3)) as (k7 & -> & _).
  destruct (solidityKeccak256_two Hd (JS.Str pair) (JS.Str "0x3")
              Hp (ex_intro _ p3 Hp3)) as (k8 & -> & _).
  destruct (solidityKeccak256_two Hd (JS.Str (from t)) (JS.Str "0x0")
              Hfrom U0) as (k9 & -> & _).
  destruct (solidityKeccak256_two Hd (JS.Str pair) (JS.Str "0x0")
              Hp U0) as (k10 & -> & _).
  cbn [rbind]. eexists. reflexivity.
Qed.

Lemma accessList_four_entries (m : CodeHashMap) (t : TradeAddresses) pair :
  digest256 _ ->
  is_uint (from t) -> is_uint (routerAddress t) ->
  is_uint (address1 t) -> is_uint (address2 t) ->
  getPair (address1 t) (address2 t) (factoryAddress t)
    (codeHash ammAddresses) = JS.Str pair ->
  is_uint pair ->
  four_entries m t pair.
Proof.
  intros Hd Hfrom Hrouter Ha1 Ha2 Hpair Hp.
  destruct (accessList_of_returns m t pair Hd Hfrom Hrouter Ha1 Ha2 Hpair Hp)
    as (al & Hal).
  pose proof (accessList_of_shape m t al Hal) as Hshape.
  rewrite Hpair in Hshape.
  exists al. unfold generateAccessList. cbn [snd]. rewrite Hal.
  repeat split; auto.
  apply (f_equal (@List.length _)) in Hshape.
  rewrite length_map in Hshape. exact Hshape.
Qed.

End AccessListTotal.

(** ** The pair address on the reference instance of web3 *)

Section ReferencePair.
Import Utils Spec Ethers Web3Reference.
Context `{Hasher}.
Hypothesis digest_size : digest256 _.
Local Abbreviation hex s := (Hex.all Hex.is_digit s = true).

Lemma is_address_digits a :
  is_address a ->
  exists d, a = String "0" (String "x" d) /\ hex d /\
            String.length d = 40%nat /\
            address_digits a = Some (JS.toLowerCase d).
Proof.
  intros [Hprefix Hok].
  destruct a as [| c1 [| c2 d]]; cbn [JS.startsWith] in Hprefix.
  - discriminate.
  - rewrite andb_false_r in Hprefix. discriminate.
  - apply andb_true_iff in Hprefix as [H1 H2].
  apply andb_true_iff in H2 as [H2 _].
  apply Ascii.eqb_eq in H1, H2. subst c1 c2.
  exists d. split; [reflexivity |].
  unfold address_digits. unfold getAddress in *.
  rewrite strip_prefix_0x in *.
  destruct (Hex.all Hex.is_digit d && (String.length d =? 40)%nat) eqn:Hd;
    [| discriminate].
  apply andb_true_iff in Hd as [Hhex Hlen]. apply Nat.eqb_eq in Hlen.
  repeat split; auto.
  destruct (_ && _ && _); [discriminate | reflexivity].
Qed.

Lemma is_uint_hex d :
  hex d -> (0 < String.length d <= 64)%nat ->
  is_uint (String "0" (String "x" d)).
Proof.
  intros Hd Hlen. unfold is_uint, pack_uint, BigNumber_from,
    BigNumber_from_string.
  rewrite strip_prefix_0x.
  destruct d as [| c d]; [simpl in Hlen; lia |].
  cbn [JS.truthy]. unfold Hex.parse.
  destruct (parse_from_hex (String c d) 0%N Hd) as (v & -> & Hv).
  cbn [rbind].
  assert (Hbound : (v < 2 ^ 256)%N).
  { eapply N.lt_le_trans; [exact Hv |].
    rewrite N.add_0_l, N.mul_1_l.
    change (2 ^ 256)%N with (16 ^ 64)%N.
    apply N.pow_le_mono_r; lia. }
  assert (0 < 2 ^ 256) by (apply Z.pow_pos_nonneg; lia).
  assert (Z.of_N v < 2 ^ 256).
  { change (2 ^ 256) with (Z.of_N (2 ^ 256)). lia. }
  replace (- 2 ^ 256 <? 1 * Z.of_N v) with true by lia.
  replace (1 * Z.of_N v <? 2 ^ 256) with true by lia.
  eexists. reflexivity.
Qed.

Lemma is_address_uint a : is_address a -> is_uint a.
Proof.
  intros Ha. destruct (is_address_digits a Ha) as (d & -> & Hd & Hlen & _).
  apply is_uint_hex; [exact Hd | lia].
Qed.

(** What is left of an encoding of 128 digits once the runs of 24 zeros
    are taken out: an even, non-zero number of digits. *)
Lemma split_join_body s :
  hex s -> String.length s = 128%nat ->
  exists bs,
    hex (JS.split_join Utils.zeros24 s) /\
    Hex.to_bytes (JS.split_join Utils.zeros24 s) = Some bs /\
    bs <> [].
Proof.
  intros Hs Hlen.
  pose proof (remove_from_hex Utils.zeros24 s 0 Hs) as Hhex.
  destruct (remove_from_length Utils.zeros24 s 0 ltac:(simpl; lia) ltac:(lia))
    as (k & Hk).
  change (String.length Utils.zeros24) with 24%nat in Hk.
  fold (JS.split_join Utils.zeros24 s) in Hhex, Hk.
  rewrite Hlen in Hk.
  destruct (to_bytes_hex (64 - 12 * k) (JS.split_join Utils.zeros24 s)
              ltac:(lia) Hhex) as (bs & Hbs & Hl).
  exists bs. repeat split; auto.
  intros ->. simpl in Hl. lia.
Qed.


Lemma encoded_pair_hex a b :
  hex a -> String.length a = 40%nat -> hex b -> String.length b = 40%nat ->
  hex (Utils.zeros24 ++ a ++ Utils.zeros24 ++ b)%string /\
  String.length (Utils.zeros24 ++ a ++ Utils.zeros24 ++ b)%string = 128%nat.
Proof.
  intros Ha La Hb Lb. split.
  - rewrite !all_append, Ha, Hb. reflexivity.
  - rewrite !length_append, La, Lb. reflexivity.
Qed.

Lemma encoded_salt_hex a d :
  hex a -> String.length a = 40%nat ->
  hex (Utils.zeros24 ++ a ++ JS.toLowerCase (Hex.of_bytes (keccak256 d)))%string /\
  String.length
    (Utils.zeros24 ++ a ++ JS.toLowerCase (Hex.of_bytes (keccak256 d)))%string
  = 128%nat.
Proof.
  intros Ha La. split.
  - rewrite !all_append, Ha, toLowerCase_hex by apply of_bytes_hex.
    reflexivity.
  - rewrite !length_append, La, toLowerCase_length, of_bytes_length,
      digest_size. reflexivity.
Qed.

Lemma sha3_bytes digits bs :
  Hex.to_bytes digits = Some bs -> bs <> [] ->
  sha3 [String "0" (String "x" digits)] =
    Ok (Some (hexlify (keccak256 bs))).
Proof.
  intros Hbs Hne. unfold sha3. cbn [pack_bytes].
  rewrite strip_prefix_0x, Hbs. cbn [rbind]. rewrite app_nil_r.
  destruct bs; [congruence | reflexivity].
Qed.

Lemma hex_body_digest d :
  hex_body 64 (hexlify (keccak256 d)) =
  Some (JS.toLowerCase (Hex.of_bytes (keccak256 d))).
Proof.
  unfold hex_body, hexlify.
  change ("0x" ++ ?s)%string with (String "0" (String "x" s)).
  rewrite strip_prefix_0x, of_bytes_hex, of_bytes_length, digest_size.
  reflexivity.
Qed.

Lemma getPair_try_reference token0 token1 factory initCodeHash :
  is_address token0 -> is_address token1 -> is_address factory ->
  is_bytes initCodeHash ->
  exists pair,
    @getPair_try Web3Reference.instance token0 token1 factory initCodeHash =
      Ok (JS.Str pair) /\
    is_uint pair.
Proof.
  intros H0 H1 Hf [Htruthy (cd & cb & Hcd & Hcb)].
  destruct (is_address_digits token0 H0) as (d0 & _ & Hd0 & L0 & E0).
  destruct (is_address_digits token1 H1) as (d1 & _ & Hd1 & L1 & E1).
  destruct (is_address_digits factory Hf) as (df & _ & Hdf & Lf & Ef).
  pose proof (toLowerCase_hex _ Hd0) as Hl0.
  pose proof (toLowerCase_hex _ Hd1) as Hl1.
  pose proof (toLowerCase_hex _ Hdf) as Hlf.
  pose proof (toLowerCase_length d0) as Ll0. rewrite L0 in Ll0.
  pose proof (toLowerCase_length d1) as Ll1. rewrite L1 in Ll1.
  pose proof (toLowerCase_length df) as Llf. rewrite Lf in Llf.
  unfold getPair_try.
  cbn [encodeParameters_address_address encodeParameters_address_bytes32
         soliditySha3 Web3Reference.instance].
  unfold encode_address_address. rewrite E0, E1. cbn [rbind].
  unfold Web3Reference.zeros24.
  change ("0x" ++ ?s)%string with (String "0" (String "x" s)).
  rewrite split_join_0x.
  destruct (encoded_pair_hex _ _ Hl0 Ll0 Hl1 Ll1) as [Hx1 Lx1].
  destruct (split_join_body _ Hx1 Lx1) as (bs1 & Hy1 & Hb1 & Hne1).
  rewrite (sha3_bytes _ bs1 Hb1 Hne1). cbn [rbind].
  unfold encode_address_bytes32. rewrite Ef, hex_body_digest. cbn [rbind].
  unfold Web3Reference.zeros24.
  change ("0x" ++ ?s)%string with (String "0" (String "x" s)).
  rewrite split_join_0x.
  change (JS.substr 2 (String "0" (String "x" ?s))) with s.
  destruct (encoded_salt_hex _ bs1 Hlf Llf) as [Hx2 Lx2].
  destruct (split_join_body _ Hx2 Lx2) as (bs2 & Hy2 & Hb2 & Hne2).
  rewrite Htruthy. cbn [negb].
  unfold sha3.
  change ("0xff" ++ ?s)%string with (String "0" (String "x" (String "f" (String "f" s)))).
  cbn [pack_bytes]. rewrite strip_prefix_0x.
  cbn [Hex.to_bytes]. rewrite Hb2.
  change (Hex.value "f") with (Some 15%N). cbv iota.
  rewrite Hcd, Hcb. cbn [rbind].
  cbn [app].
  unfold hexlify. cbn [rbind].
  change ("0x" ++ ?s)%string with (String "0" (String "x" s)).
  change (JS.substr 26 (String "0" (String "x" ?s))) with (JS.substr 24 s).
  set (digest := keccak256 _).
  assert (Hlen : String.length (JS.substr 24 (Hex.of_bytes digest)) = 40%nat).
  { rewrite substr_length, of_bytes_length. unfold digest.
    rewrite digest_size. reflexivity. }
  destruct (JS.substr 24 (Hex.of_bytes digest)) as [| c rest] eqn:Hsub;
    [discriminate |].
  cbn [JS.truthy].
  eexists. split; [reflexivity |].
  apply is_uint_hex.
  - rewrite <- Hsub. apply substr_hex, of_bytes_hex.
  - rewrite Hlen. lia.
Qed.
End ReferencePair.

(** ** The access list, for every quintuple of addresses *)

Section AccessListClaim.

Import Utils Spec.
Context `{Hasher} `{Constants}.

Lemma getPair_reference (tokenA tokenB factory initCodeHash : string) :
  digest256 _ ->
  is_address tokenA -> is_address tokenB -> is_address factory ->
  is_bytes initCodeHash ->
  exists pair,
    @getPair Web3Reference.instance tokenA tokenB factory initCodeHash =
      JS.Str pair /\
    is_uint pair.
Proof.
  intros Hd HA HB Hf Hc. unfold getPair.
  destruct (JS.lt tokenA tokenB).
  - destruct (getPair_try_reference Hd tokenA tokenB factory initCodeHash
                HA HB Hf Hc) as (pair & -> & Hp).
    exists pair. split; [reflexivity | exact Hp].
  - destruct (getPair_try_reference Hd tokenB tokenA factory initCodeHash
                HB HA Hf Hc) as (pair & -> & Hp).
    exists pair. split; [reflexivity | exact Hp].
Qed.

(** C5. For a quintuple of addresses (two tokens, factory, router, sender),
    [generateAccessList] returns a list of exactly four entries, in the
    order pair, first token, second token, factory; it leaves the code-hash
    map as it was, so that a second call with the same arguments returns
    the same list.  This holds with any implementation of web3 whenever
    [getPair] derives a pair address, and it does derive one on the
    reference instance when the init-code hash of the configuration is a
    string of bytes. *)
Theorem generateAccessList_four_entries (m : CodeHashMap)
  (t : TradeAddresses) :
  digest256 _ ->
  is_address (from t) -> is_address (routerAddress t) ->
  is_address (address1 t) -> is_address (address2 t) ->
  (forall (W : Web3) pair,
      @getPair W (address1 t) (address2 t) (factoryAddress t)
        (codeHash ammAddresses) = JS.Str pair ->
      is_uint pair ->
      @four_entries _ W _ m t pair) /\
  (is_address (factoryAddress t) ->
   is_bytes (codeHash ammAddresses) ->
   exists pair,
     @getPair Web3Reference.instance (address1 t) (address2 t)
       (factoryAddress t) (codeHash ammAddresses) = JS.Str pair /\
     @four_entries _ Web3Reference.instance _ m t pair).
Proof.
  intros Hd Hfrom Hrouter Ha1 Ha2.
  pose proof (is_address_uint _ Hfrom) as Ufrom.
  pose proof (is_address_uint _ Hrouter) as Urouter.
  pose proof (is_address_uint _ Ha1) as U1.
  pose proof (is_address_uint _ Ha2) as U2.
  split.
  - intros W pair Hpair Hp.
    apply (@accessList_four_entries _ W); assumption.
  - intros Hf Hc.
    destruct (getPair_reference (address1 t) (address2 t) (factoryAddress t)
                (codeHash ammAddresses) Hd Ha1 Ha2 Hf Hc)
      as (pair & Hpair & Hp).
    exists pair. split; [exact Hpair |].
    apply (@accessList_four_entries _ Web3Reference.instance); assumption.
Qed.

End AccessListClaim.

Lemma generateAccessList_witness :
  @Spec.four_entries keccak_hasher (@Web3Reference.instance keccak_hasher)
    Fixture.constants (@Utils.codeHashMap Fixture.constants)
    Fixture.swapAddresses "0xa478c2975ab1ea89e8196811f51a7b7ade33eb11".
Proof.
  refine (proj1 (@generateAccessList_four_entries keccak_hasher
            Fixture.constants (@Utils.codeHashMap Fixture.constants)
            Fixture.swapAddresses keccak256_length _ _ _ _) _ _ _ _).
  - split; vm_compute; reflexivity.
  - split; vm_compute; reflexivity.
  - split; vm_compute; reflexivity.
  - split; vm_compute; reflexivity.
  - vm_compute. reflexivity.
  - eexists. reflexivity.
Defined.

(** ** Explorer links *)

Section Links.

Import Utils.

Lemma append_inv_head p : forall a b,
  (p ++ a)%string = (p ++ b)%string -> a = b.
Proof.
  induction p as [| c p IH]; intros a b Hab; [exact Hab |].
  rewrite !append_cons in Hab. injection Hab as Hab. apply IH. exact Hab.
Qed.

(** X1. An explorer link determines what it links to: two links are equal
    only for the same kind and the same data, whatever the chain ids; and
    every link starts with the one fixed explorer address. *)
Theorem getEtherscanLink_injective (chainId chainId' : Z)
  (data data' : string) (type type' : LinkType) :
  (getEtherscanLink chainId data type =
   getEtherscanLink chainId' data' type' <->
   type = type' /\ data = data') /\
  JS.startsWith "https://explorer.liberty20.shardeum.org/"
    (getEtherscanLink chainId data type) = true.
Proof.
  split.
  - split.
    + unfold getEtherscanLink. intros Heq.
      destruct type, type'; apply append_inv_head in Heq;
        cbv [String.append] in Heq;
        try discriminate Heq;
        (split; [reflexivity |]);
        repeat (injection Heq as Heq); exact Heq.
    + intros [-> ->]. reflexivity.
  - destruct type; reflexivity.
Qed.

End Links.

(** ** Escaping a regular expression *)

Section Escaping.

Import Utils Spec.

Lemma backslash_special : JS.char_in JS.backslash regExpSpecials = true.
Proof. reflexivity. Qed.

Lemma plain_not_backslash c :
  JS.char_in c regExpSpecials = false -> Ascii.eqb c JS.backslash = false.
Proof.
  intros Hc. destruct (Ascii.eqb c JS.backslash) eqn:Hb; [| reflexivity].
  apply Ascii.eqb_eq in Hb. subst c. rewrite backslash_special in Hc.
  discriminate.
Qed.

(** X4. The escaped text is a regular expression made of plain characters
    and escaped special characters only, and the text it spells is the
    input; it is longer than the input by one character for each special
    character, and a text without special characters is left as it is. *)
Theorem escapeRegExp_literal (s : string) :
  literal_text (escapeRegExp s) = Some s /\
  String.length (escapeRegExp s) =
    (String.length s + count_specials s)%nat /\
  (count_specials s = 0%nat <-> escapeRegExp s = s).
Proof.
  induction s as [| c s (IH1 & IH2 & IH3)]; [repeat split; reflexivity |].
  cbn [escapeRegExp count_specials].
  destruct (JS.char_in c regExpSpecials) eqn:Hc.
  - split; [| split].
    + cbn [literal_text]. rewrite Ascii.eqb_refl, Hc, IH1. reflexivity.
    + cbn [String.length]. rewrite IH2. lia.
    + split; [discriminate |]. intros Heq. exfalso.
      apply (f_equal String.length) in Heq. cbn [String.length] in Heq.
      rewrite IH2 in Heq. lia.
  - split; [| split].
    + cbn [literal_text]. rewrite (plain_not_backslash c Hc), Hc, IH1.
      reflexivity.
    + cbn [String.length]. rewrite IH2. lia.
    + cbn [Nat.add]. rewrite IH3. split.
      * intros ->. reflexivity.
      * intros Heq. injection Heq as Heq. exact Heq.
Qed.

End Escaping.

(** ** Gas margin and slippage, as arithmetic *)

Section Margins.

Import Utils.

Lemma gas_margin_nonneg e :
  0 <= e -> calculateGasMargin e = e + Z.quot e 10.
Proof.
  intros He. unfold calculateGasMargin.
  rewrite !Z.quot_div_nonneg by lia.
  replace (e * (10000 + 1000)) with (e * 10000 + e * 1000) by lia.
  rewrite Z.add_comm, Z.div_add by lia.
  replace (e * 1000) with (e * 1000) by lia.
  replace 10000 with (10 * 1000) at 1 by lia.
  rewrite Z.div_mul_cancel_r by lia. lia.
Qed.

Lemma gas_margin_opp e : calculateGasMargin (- e) = - calculateGasMargin e.
Proof.
  unfold calculateGasMargin.
  rewrite Z.mul_opp_l. apply Z.quot_opp_l. lia.
Qed.

(** X5. [calculateGasMargin] adds to the value one tenth of it, rounded
    toward zero, for a value of either sign; and it is monotone. *)
Theorem calculateGasMargin_tenth (e e' : Z) :
  calculateGasMargin e = e + Z.quot e 10 /\
  (e <= e' -> calculateGasMargin e <= calculateGasMargin e').
Proof.
  assert (Hformula : forall v, calculateGasMargin v = v + Z.quot v 10).
  { intros v. destruct (Z_le_gt_dec 0 v) as [Hv | Hv].
    - apply gas_margin_nonneg. exact Hv.
    - replace v with (- (- v)) by lia.
      rewrite gas_margin_opp, gas_margin_nonneg by lia.
      rewrite (Z.quot_opp_l (- v) 10) by lia. lia. }
  split; [apply Hformula |].
  intros Hle. rewrite !Hformula.
  pose proof (Z.quot_le_mono e e' 10 ltac:(lia) Hle). lia.
Qed.

(** X6. For a raw amount that is not negative, widening the slippage never
    raises the lower amount and never lowers the upper one, and the two
    amounts lie symmetrically about the raw amount up to one unit of
    rounding; a slippage of 0 gives the raw amount twice, and a slippage of
    10000 gives 0 and twice the raw amount. *)
Theorem calculateSlippageAmount_monotone (raw s1 s2 : Z) :
  0 <= raw -> 0 <= s1 <= s2 -> s2 <= 10000 ->
  (exists lo1 hi1 lo2 hi2,
      calculateSlippageAmount raw (JS.number_of_Z s1) = Ok (lo1, hi1) /\
      calculateSlippageAmount raw (JS.number_of_Z s2) = Ok (lo2, hi2) /\
      lo2 <= lo1 /\ hi1 <= hi2 /\
      2 * raw - 1 <= lo1 + hi1 <= 2 * raw) /\
  calculateSlippageAmount raw (JS.number_of_Z 0) = Ok (raw, raw) /\
  calculateSlippageAmount raw (JS.number_of_Z 10000) = Ok (0, 2 * raw).
Proof.
  intros Hraw Hs1 Hs2. split; [| split].
  - rewrite !calculateSlippageAmount_integer by lia.
    do 4 eexists. split; [reflexivity |]. split; [reflexivity |]. split.
    + apply Z.quot_le_mono; [lia | nia].
    + split; [apply Z.quot_le_mono; [lia | nia] |].
      rewrite !quot_floor by nia.
      pose proof (Z.div_mod (raw * (10000 - s1)) 10000 ltac:(lia)).
      pose proof (Z.div_mod (raw * (10000 + s1)) 10000 ltac:(lia)).
      pose proof (Z.mod_pos_bound (raw * (10000 - s1)) 10000 ltac:(lia)).
      pose proof (Z.mod_pos_bound (raw * (10000 + s1)) 10000 ltac:(lia)).
      lia.
  - rewrite calculateSlippageAmount_integer by lia.
    rewrite Z.sub_0_r, Z.add_0_r, Z.quot_mul by lia. reflexivity.
  - rewrite calculateSlippageAmount_integer by lia.
    f_equal. f_equal.
    + rewrite Z.sub_diag, Z.mul_0_r. reflexivity.
    + replace (raw * (10000 + 10000)) with (2 * raw * 10000) by lia.
      apply Z.quot_mul. lia.
Qed.

Lemma calculateSlippageAmount_monotone_witness :
  exists lo1 hi1 lo2 hi2,
    calculateSlippageAmount 1000001 (JS.number_of_Z 50) = Ok (lo1, hi1) /\
    calculateSlippageAmount 1000001 (JS.number_of_Z 100) = Ok (lo2, hi2) /\
    lo2 <= lo1 /\ hi1 <= hi2 /\
    2 * 1000001 - 1 <= lo1 + hi1 <= 2 * 1000001.
Proof.
  exact (proj1 (calculateSlippageAmount_monotone 1000001 50 100
                  ltac:(lia) ltac:(lia) ltac:(lia))).
Defined.

End Margins.

(** ** Addresses and contracts *)

Section Addresses.

Import Utils Spec.
Context `{Hasher}.
Local Abbreviation hex s := (Hex.all Hex.is_digit s = true).

Lemma checksum_chars_cons c s n ns :
  checksum_chars (String c s) (n :: ns) =
  String (raised n c) (checksum_chars s ns).
Proof. reflexivity. Qed.

Lemma raised_hex n c :
  Hex.is_digit c = true -> Hex.is_digit (raised n c) = true.
Proof.
  unfold raised. destruct (8 <=? n)%N; [| auto].
  destruct c as [[] [] [] [] [] [] [] []]; intros Hc;
    try discriminate Hc; reflexivity.
Qed.

Lemma raised_lower n c :
  Hex.is_digit c = true -> JS.lower_char (raised n c) = JS.lower_char c.
Proof.
  unfold raised. destruct (8 <=? n)%N; [| auto].
  destruct c as [[] [] [] [] [] [] [] []]; intros Hc;
    try discriminate Hc; reflexivity.
Qed.

Lemma lower_char_idem c : JS.lower_char (JS.lower_char c) = JS.lower_char c.
Proof. destruct c as [[] [] [] [] [] [] [] []]; reflexivity. Qed.

Lemma toLowerCase_idem s : JS.toLowerCase (JS.toLowerCase s) = JS.toLowerCase s.
Proof.
  induction s as [| c s IH]; [reflexivity |].
  cbn [JS.toLowerCase]. rewrite lower_char_idem, IH. reflexivity.
Qed.

Lemma checksum_chars_facts s : forall ns,
  hex s ->
  hex (checksum_chars s ns) /\
  String.length (checksum_chars s ns) = String.length s /\
  JS.toLowerCase (checksum_chars s ns) = JS.toLowerCase s.
Proof.
  induction s as [| c s IH]; intros ns Hs.
  - destruct ns; repeat split; reflexivity.
  - destruct ns as [| n ns]; [repeat split; auto |].
    cbn [Hex.all] in Hs. apply andb_true_iff in Hs as [Hc Hs].
    destruct (IH ns Hs) as (H1 & H2 & H3).
    rewrite checksum_chars_cons. cbn [Hex.all String.length JS.toLowerCase].
    rewrite (raised_hex n c Hc), H1, H2, H3, (raised_lower n c Hc).
    repeat split; reflexivity.
Qed.

Lemma getAddress_inv value checksummed :
  getAddress value = Ok checksummed ->
  exists digits,
    (value = digits \/ value = String "0" (String "x" digits)) /\
    hex digits /\ String.length digits = 40%nat /\
    checksummed = getChecksumAddress digits.
Proof.
  unfold getAddress. intros Hget.
  set (digits := match JS.strip_prefix "0x" value with
                 | Some d => d | None => value end) in *.
  destruct (Hex.all Hex.is_digit digits && (String.length digits =? 40)%nat)
    eqn:Hd; [| discriminate].
  apply andb_true_iff in Hd as [Hhex Hlen]. apply Nat.eqb_eq in Hlen.
  destruct (_ && _ && _); [discriminate |]. injection Hget as <-.
  exists digits. repeat split; auto.
  unfold digits. unfold JS.strip_prefix.
  destruct (JS.startsWith "0x" value) eqn:Hp; [| left; reflexivity].
  right. destruct value as [| c1 [| c2 d]]; cbn [JS.startsWith] in Hp.
  - discriminate.
  - rewrite andb_false_r in Hp. discriminate.
  - apply andb_true_iff in Hp as [H1 H2].
    apply andb_true_iff in H2 as [H2 _].
    apply Ascii.eqb_eq in H1, H2. subst c1 c2. reflexivity.
Qed.

Lemma getChecksumAddress_shape digits :
  hex digits ->
  exists body,
    getChecksumAddress digits = String "0" (String "x" body) /\
    hex body /\ String.length body = String.length digits /\
    JS.toLowerCase body = JS.toLowerCase digits.
Proof.
  intros Hd. unfold getChecksumAddress.
  set (ns := nibbles _).
  destruct (checksum_chars_facts (JS.toLowerCase digits) ns
              (toLowerCase_hex _ Hd)) as (H1 & H2 & H3).
  exists (checksum_chars (JS.toLowerCase digits) ns).
  split; [reflexivity |]. split; [exact H1 |]. split.
  - rewrite H2. apply toLowerCase_length.
  - rewrite H3. apply toLowerCase_idem.
Qed.

(** The checksummed form is an address, and its own checksummed form. *)
Lemma getAddress_fixed value checksummed :
  getAddress value = Ok checksummed ->
  getAddress checksummed = Ok checksummed /\
  String.length checksummed = 42%nat /\
  JS.startsWith "0x" checksummed = true.
Proof.
  intros Hget.
  destruct (getAddress_inv _ _ Hget) as (digits & _ & Hhex & Hlen & ->).
  destruct (getChecksumAddress_shape digits Hhex)
    as (body & Hshape & Hb & Lb & Hlow).
  rewrite Hshape. split; [| split].
  - unfold getAddress. rewrite strip_prefix_0x, Hb, Lb, Hlen.
    cbn [andb Nat.eqb].
    assert (Hsame : getChecksumAddress body = String "0" (String "x" body)).
    { unfold getChecksumAddress. rewrite Hlow.
      unfold getChecksumAddress in Hshape. exact Hshape. }
    rewrite Hsame.
    change ("0x" ++ body)%string with (String "0" (String "x" body)).
    rewrite String.eqb_refl. cbn [negb]. rewrite andb_false_r. reflexivity.
  - cbn [String.length]. rewrite Lb, Hlen. reflexivity.
  - reflexivity.
Qed.

(** X18. [isAddress] gives a checksummed address that is itself accepted
    and is its own checksummed form; it has 42 characters and starts with
    [0x]. *)
Theorem isAddress_idempotent (value checksummed : string) :
  isAddress value = Some checksummed ->
  isAddress checksummed = Some checksummed /\
  String.length checksummed = 42%nat /\
  JS.startsWith "0x" checksummed = true.
Proof.
  unfold isAddress. intros Hv.
  destruct (getAddress value) as [c | msg] eqn:Hget; [| discriminate].
  injection Hv as ->.
  destruct (getAddress_fixed _ _ Hget) as (Hfix & Hlen & Hp).
  rewrite Hfix. repeat split; auto.
Qed.

Lemma take_substr n : forall s, (JS.take n s ++ JS.substr n s)%string = s.
Proof.
  induction n as [| n IH]; intros s; [destruct s; reflexivity |].
  destruct s as [| c s]; [reflexivity |].
  cbn [JS.take JS.substr]. rewrite append_cons, IH. reflexivity.
Qed.

Lemma take_length n : forall s,
  String.length (JS.take n s) = Nat.min n (String.length s).
Proof.
  induction n as [| n IH]; intros s; [destruct s; reflexivity |].
  destruct s as [| c s]; [reflexivity |].
  cbn [JS.take String.length]. rewrite IH. reflexivity.
Qed.

Lemma take_all n : forall s, (String.length s <= n)%nat -> JS.take n s = s.
Proof.
  induction n as [| n IH]; intros s Hs.
  - destruct s; [reflexivity | simpl in Hs; lia].
  - destruct s as [| c s]; [reflexivity |].
    cbn [JS.take]. rewrite IH; [reflexivity | simpl in Hs; lia].
Qed.

Lemma substr_substr j : forall k s,
  JS.substr k (JS.substr j s) = JS.substr (j + k) s.
Proof.
  induction j as [| j IH]; intros k s.
  - destruct s; reflexivity.
  - destruct s as [| c s].
    + cbn [JS.substr]. destruct k; reflexivity.
    + cbn [JS.substr Nat.add]. apply IH.
Qed.

(** X2. [shortenAddress] throws for a text that is not an address.  For an
    address and [0 <= chars <= 20] it returns the first [chars + 2]
    characters of the checksummed form, three dots and its last [chars]
    characters: [2 * chars + 5] characters, 13 when [chars] is left out. *)
Theorem shortenAddress_parts (address : string) (chars : option Z) :
  (isAddress address = None ->
   shortenAddress address chars =
   Throw ("Invalid 'address' parameter '" ++ address ++ "'.")%string) /\
  (forall parsed n,
      isAddress address = Some parsed ->
      n = match chars with Some k => k | None => 4 end ->
      0 <= n <= 20 ->
      exists head middle tail,
        parsed = (head ++ middle ++ tail)%string /\
        String.length head = Z.to_nat (n + 2) /\
        String.length tail = Z.to_nat n /\
        shortenAddress address chars = Ok (head ++ "..." ++ tail)%string /\
        String.length (head ++ "..." ++ tail)%string = Z.to_nat (2 * n + 5)).
Proof.
  split.
  - intros Hnone. unfold shortenAddress. rewrite Hnone. reflexivity.
  - intros parsed n Hsome Hn Hrange.
    assert (Hfix : String.length parsed = 42%nat /\
                   JS.startsWith "0x" parsed = true).
    { unfold isAddress in Hsome.
      destruct (getAddress address) as [c | msg] eqn:Hget; [| discriminate].
      injection Hsome as ->.
      destruct (getAddress_fixed _ _ Hget) as (_ & Hl & Hp). auto. }
    destruct Hfix as [Hlen Hprefix].
    unfold shortenAddress. rewrite Hsome, <- Hn.
    assert (Htruthy : JS.truthy parsed = true)
      by (destruct parsed; [discriminate | reflexivity]).
    rewrite Htruthy.
    unfold JS.substring_from, JS.substring, JS.clamp. rewrite Hlen.
    replace (Z.to_nat (Z.max 0 (Z.min 0 (Z.of_nat 42)))) with 0%nat by lia.
    replace (Z.to_nat (Z.max 0 (Z.min (n + 2) (Z.of_nat 42))))
      with (Z.to_nat (n + 2)) by lia.
    replace (Z.to_nat (Z.max 0 (Z.min (42 - n) (Z.of_nat 42))))
      with (42 - Z.to_nat n)%nat by lia.
    replace (Z.to_nat (Z.max 0 (Z.min (Z.of_nat 42) (Z.of_nat 42))))
      with 42%nat by lia.
    rewrite Nat.max_r, Nat.min_l by lia.
    rewrite Nat.max_r, Nat.min_l by lia.
    replace (Z.to_nat (n + 2) - 0)%nat with (Z.to_nat (n + 2)) by lia.
    replace (JS.substr 0 parsed) with parsed by (destruct parsed; reflexivity).
    set (k := Z.to_nat n).
    replace (Z.to_nat (n + 2)) with (k + 2)%nat by lia.
    replace (42 - (42 - k))%nat with k by lia.
    assert (Htail : JS.take k (JS.substr (42 - k) parsed) =
                    JS.substr (42 - k) parsed).
    { apply take_all. rewrite substr_length, Hlen. lia. }
    rewrite Htail.
    exists (JS.take (k + 2) parsed),
           (JS.take (40 - 2 * k) (JS.substr (k + 2) parsed)),
           (JS.substr (42 - k) parsed).
    split; [| split; [| split; [| split]]].
    + replace (42 - k)%nat with ((k + 2) + (40 - 2 * k))%nat by lia.
      rewrite <- (substr_substr (k + 2) (40 - 2 * k) parsed).
      rewrite take_substr, take_substr. reflexivity.
    + rewrite take_length, Hlen. lia.
    + rewrite substr_length, Hlen. lia.
    + reflexivity.
    + rewrite !length_append, take_length, substr_length, Hlen.
      cbn [String.length]. lia.
Qed.

Lemma zeros_checksum k : forall ns,
  checksum_chars (JS.repeat_char "0" k) ns = JS.repeat_char "0" k.
Proof.
  induction k as [| k IH]; intros ns; [destruct ns; reflexivity |].
  destruct ns as [| n ns]; [reflexivity |].
  cbn [JS.repeat_char]. rewrite checksum_chars_cons, IH.
  unfold raised. destruct (8 <=? n)%N; reflexivity.
Qed.

Lemma bare_zero_address :
  getAddress (JS.repeat_char "0" 40) = Ok AddressZero.
Proof.
  unfold getAddress.
  change (JS.strip_prefix "0x" (JS.repeat_char "0" 40)) with (@None string).
  cbv iota.
  change (Hex.all Hex.is_digit (JS.repeat_char "0" 40)
          && (String.length (JS.repeat_char "0" 40) =? 40)%nat) with true.
  cbv iota.
  change (has_upper_hex (JS.repeat_char "0" 40)) with false.
  cbn [andb]. unfold getChecksumAddress.
  change (JS.toLowerCase (JS.repeat_char "0" 40))
    with (JS.repeat_char "0" 40).
  rewrite zeros_checksum. reflexivity.
Qed.

(** X3. [getContract] returns a contract exactly for a text that
    [isAddress] accepts and that is not the zero address as written in
    [AddressZero]; the contract keeps the address as it was given, and it
    signs with the account when there is one.  The test is on the text:
    the zero address written without [0x] is accepted. *)
Theorem getContract_accepts (address ABI : string)
  (library : Web3Provider) (account : option string) :
  (is_ok (getContract address ABI library account) = true <->
   isAddress address <> None /\ address <> AddressZero) /\
  (forall c,
      getContract address ABI library account = Ok c ->
      contract_address c = address /\ contract_abi c = ABI /\
      contract_runner c =
        match SwapCallback.present account with
        | Some a => UseSigner library a
        | None => UseProvider library
        end) /\
  (isAddress (JS.repeat_char "0" 40) = Some AddressZero /\
   is_ok (getContract (JS.repeat_char "0" 40) ABI library account) = true).
Proof.
  split; [| split].
  - unfold getContract.
    destruct (isAddress address) as [c |].
    + destruct (String.eqb address AddressZero) eqn:Hz.
      * apply String.eqb_eq in Hz. split; [discriminate |].
        intros [_ Hne]. congruence.
      * apply String.eqb_neq in Hz. split; [| reflexivity].
        intros _. split; [discriminate | exact Hz].
    + split; [discriminate |]. intros [Hne _]. congruence.
  - intros c Hc. unfold getContract in Hc.
    destruct (isAddress address); [| discriminate].
    destruct (String.eqb address AddressZero); [discriminate |].
    injection Hc as <-. cbn. repeat split.
    unfold getProviderOrSigner, SwapCallback.present.
    destruct account as [a |]; [destruct (JS.truthy a) |]; reflexivity.
  - assert (Hbare : isAddress (JS.repeat_char "0" 40) = Some AddressZero).
    { unfold isAddress. rewrite bare_zero_address. reflexivity. }
    split; [exact Hbare |].
    unfold getContract. rewrite Hbare. reflexivity.
Qed.


End Addresses.

Lemma isAddress_idempotent_witness :
  @Utils.isAddress keccak_hasher Fixture.sender = Some Fixture.sender.
Proof.
  refine (proj1 (@isAddress_idempotent keccak_hasher
            "0x5aaeb6053f3e94c9b9a09f33669435e7ef1beaed" Fixture.sender _)).
  vm_compute. reflexivity.
Defined.

Section Bytes.

Local Open Scope N_scope.

Lemma byte_of_N_to_N v b : Hex.byte_of_N (256 * v + Byte.to_N b) = b.
Proof.
  unfold Hex.byte_of_N.
  pose proof (Byte.to_N_bounded b) as Hb.
  replace ((256 * v + Byte.to_N b) mod 256) with (Byte.to_N b).
  - rewrite Byte.of_to_N. reflexivity.
  - rewrite N.add_comm, N.mul_comm, N.Div0.mod_add.
    symmetry. apply N.mod_small. lia.
Qed.

Lemma be_bytes_be_value bs :
  Hex.be_bytes (List.length bs) (Hex.be_value bs) = bs.
Proof.
  unfold Hex.be_value.
  induction bs as [| b bs IH] using rev_ind; [reflexivity |].
  rewrite length_app, Nat.add_comm. cbn [List.length Nat.add Hex.be_bytes].
  rewrite be_value_from_app, byte_of_N_to_N.
  pose proof (Byte.to_N_bounded b) as Hb.
  replace ((256 * Hex.be_value_from 0 bs + Byte.to_N b) / 256)
    with (Hex.be_value_from 0 bs).
  - rewrite IH. reflexivity.
  - rewrite N.add_comm, N.mul_comm, N.div_add by lia.
    rewrite N.div_small by lia. reflexivity.
Qed.

End Bytes.

Section NestedKeys.

Import Utils Spec Ethers.
Context `{Hasher}.
Hypothesis digest_size : digest256 _.

Lemma pack_uint_hexlify msg :
  pack_uint (JS.Str (hexlify (keccak256 msg))) = Ok (keccak256 msg).
Proof.
  unfold pack_uint, BigNumber_from.
  rewrite BigNumber_from_hexlify by (apply digest_nonempty; exact digest_size).
  cbn [rbind].
  pose proof (digest_value_bound digest_size msg) as Hb.
  assert (0 < 2 ^ 256) by (apply Z.pow_pos_nonneg; lia).
  replace (- 2 ^ 256 <? Z.of_N (Hex.be_value (keccak256 msg))) with true by lia.
  replace (Z.of_N (Hex.be_value (keccak256 msg)) <? 2 ^ 256) with true by lia.
  cbn [andb]. rewrite Z.mod_small by lia. rewrite N2Z.id.
  rewrite <- (digest_size msg) at 1. rewrite be_bytes_be_value. reflexivity.
Qed.

Lemma solidityKeccak256_pair a b pa pb :
  pack_uint a = Ok pa -> pack_uint b = Ok pb ->
  solidityKeccak256 [a; b] = Ok (hexlify (keccak256 (pa ++ pb))).
Proof.
  intros Ha Hb. unfold solidityKeccak256. cbn [pack_uints].
  rewrite Ha, Hb. cbn [rbind]. rewrite app_nil_r. reflexivity.
Qed.

Lemma solidityKeccak256_pair_inv a b k :
  solidityKeccak256 [a; b] = Ok k ->
  (exists pa, pack_uint a = Ok pa) /\ (exists pb, pack_uint b = Ok pb).
Proof.
  unfold solidityKeccak256. cbn [pack_uints]. intros Hk.
  destruct (pack_uint a) as [pa | ]; [| discriminate].
  destruct (pack_uint b) as [pb | ]; [| discriminate].
  split; eexists; reflexivity.
Qed.

(** X7. [getNestedStorageKey] returns a key exactly when its three
    arguments pack as [uint]s, and the key is then the slot of a nested
    mapping: the hash of the second key followed by the hash of the first
    key followed by the slot. *)
Theorem getNestedStorageKey_nested (key1 key2 slotOfMap : string) :
  (is_ok (getNestedStorageKey key1 key2 slotOfMap) = true <->
   is_uint key1 /\ is_uint key2 /\ is_uint slotOfMap) /\
  (forall p1 p2 ps,
      pack_uint (JS.Str key1) = Ok p1 ->
      pack_uint (JS.Str key2) = Ok p2 ->
      pack_uint (JS.Str slotOfMap) = Ok ps ->
      getNestedStorageKey key1 key2 slotOfMap =
      Ok (hexlify (keccak256 (p2 ++ keccak256 (p1 ++ ps))))).
Proof.
  assert (Hvalue : forall p1 p2 ps,
      pack_uint (JS.Str key1) = Ok p1 ->
      pack_uint (JS.Str key2) = Ok p2 ->
      pack_uint (JS.Str slotOfMap) = Ok ps ->
      getNestedStorageKey key1 key2 slotOfMap =
      Ok (hexlify (keccak256 (p2 ++ keccak256 (p1 ++ ps))))).
  { intros p1 p2 ps H1 H2 Hs. unfold getNestedStorageKey.
    rewrite (solidityKeccak256_pair _ _ _ _ H1 Hs). cbn [rbind].
    apply solidityKeccak256_pair; [exact H2 | apply pack_uint_hexlify]. }
  split; [| exact Hvalue].
  split.
  - unfold getNestedStorageKey. intros Hok.
    destruct (solidityKeccak256 [JS.Str key1; JS.Str slotOfMap])
      as [first |] eqn:Hfirst; [| discriminate].
    cbn [rbind] in Hok.
    destruct (solidityKeccak256 [JS.Str key2; JS.Str first])
      as [k |] eqn:Hk; [| discriminate].
    destruct (solidityKeccak256_pair_inv _ _ _ Hfirst) as [U1 Us].
    destruct (solidityKeccak256_pair_inv _ _ _ Hk) as [U2 _].
    auto.
  - intros ([p1 H1] & [p2 H2] & [ps Hs]).
    rewrite (Hvalue p1 p2 ps H1 H2 Hs). reflexivity.
Qed.

(** X8. For a slot that packs as a [uint], [getArrayItemKey] returns a
    key exactly for an index below [2^53 - 1]; an index that is zero or
    negative gives the key of the first element; and two different indexes
    from zero on never share a key. *)
Theorem getArrayItemKey_indexes (slotOfArray : string) (packed : list byte) :
  pack_uint (JS.Str slotOfArray) = Ok packed ->
  (forall index,
      is_ok (getArrayItemKey index slotOfArray) = true <-> index < MAX_SAFE) /\
  (forall index,
      index <= 0 ->
      getArrayItemKey index slotOfArray = Ok (hexlify (keccak256 packed))) /\
  (forall i j ki kj,
      0 <= i -> 0 <= j ->
      getArrayItemKey i slotOfArray = Ok ki ->
      getArrayItemKey j slotOfArray = Ok kj ->
      ki = kj -> i = j).
Proof.
  intros Hslot.
  assert (Hthrow : forall index, MAX_SAFE <= index ->
            getArrayItemKey index slotOfArray = Throw "overflow").
  { intros index Hindex. unfold getArrayItemKey.
    rewrite (solidityKeccak256_one _ _ Hslot). cbn [rbind].
    replace (index >? 0) with true by (unfold MAX_SAFE in Hindex; lia).
    unfold BigNumber_from_number.
    replace (MAX_SAFE <=? index) with true by lia. reflexivity. }
  assert (Hlow : forall index, index <= 0 ->
            getArrayItemKey index slotOfArray =
            Ok (hexlify (keccak256 packed))).
  { intros index Hindex. unfold getArrayItemKey.
    rewrite (solidityKeccak256_one _ _ Hslot). cbn [rbind].
    replace (index >? 0) with false by lia. reflexivity. }
  split; [| split].
  - intros index. split.
    + intros Hok. destruct (Z_lt_le_dec index MAX_SAFE) as [| Hge]; [assumption |].
      rewrite (Hthrow index Hge) in Hok. discriminate.
    + intros Hlt. destruct (Z_lt_le_dec index 0) as [Hneg | Hpos].
      * rewrite Hlow by lia. reflexivity.
      * destruct (getArrayItemKey_value digest_size index slotOfArray packed
                    Hslot (conj Hpos Hlt)) as (key & -> & _).
        reflexivity.
  - exact Hlow.
  - intros i j ki kj Hi Hj Hki Hkj Heq.
    assert (Hbound : forall n k, 0 <= n -> getArrayItemKey n slotOfArray = Ok k ->
              BigNumber_from_string k =
              Ok (Z.of_N (Hex.be_value (keccak256 packed)) + n)).
    { intros n k Hn Hk.
      destruct (Z_lt_le_dec n MAX_SAFE) as [Hlt | Hge].
      - destruct (getArrayItemKey_value digest_size n slotOfArray packed
                    Hslot (conj Hn Hlt)) as (key & Hkey & Hvalue & _).
        rewrite Hkey in Hk. injection Hk as <-. exact Hvalue.
      - rewrite (Hthrow n Hge) in Hk. discriminate. }
    pose proof (Hbound i ki Hi Hki) as Vi.
    pose proof (Hbound j kj Hj Hkj) as Vj.
    rewrite Heq in Vi. rewrite Vi in Vj. injection Vj as Vj. lia.
Qed.

End NestedKeys.

Lemma getNestedStorageKey_nested_witness :
  @Utils.getNestedStorageKey keccak_hasher "0x1" "0x2" "0x3" =
  Ok (Ethers.hexlify
        (Keccak.keccak256
           (Hex.be_bytes 32 2 ++
            Keccak.keccak256 (Hex.be_bytes 32 1 ++ Hex.be_bytes 32 3)))).
Proof.
  apply (proj2 (@getNestedStorageKey_nested keccak_hasher keccak256_length
                  "0x1" "0x2" "0x3")); reflexivity.
Defined.

Lemma getArrayItemKey_indexes_witness :
  @Utils.getArrayItemKey keccak_hasher (-5) "0x3" =
  Ok (Ethers.hexlify (Keccak.keccak256 (Hex.be_bytes 32 3))).
Proof.
  apply (proj1 (proj2 (@getArrayItemKey_indexes keccak_hasher keccak256_length
                         "0x3" (Hex.be_bytes 32 3) eq_refl))).
  lia.
Defined.

Section PairResult.

Import Utils.
Context `{Web3}.

Lemma truthy_length s : JS.truthy s = true <-> (0 < String.length s)%nat.
Proof. destruct s; cbn; split; intros; try lia; try discriminate; reflexivity. Qed.

Lemma getPair_try_result token0 token1 factory codeHash v :
  getPair_try token0 token1 factory codeHash = Ok v ->
  (v = JS.Undefined /\ codeHash = EmptyString) \/
  (v = JS.Null /\ JS.truthy codeHash = true) \/
  (exists tail digest,
      soliditySha3 [("0xff" ++ tail)%string; codeHash] = Ok (Some digest) /\
      v = JS.Str ("0x" ++ JS.substr 26 digest) /\
      (26 < String.length digest)%nat /\
      JS.truthy codeHash = true).
Proof.
  unfold getPair_try. intros Hv.
  destruct (encodeParameters_address_address token0 token1) as [e1 |];
    [| discriminate].
  cbn [rbind] in Hv.
  destruct (soliditySha3 [JS.split_join zeros24 e1]) as [salt |];
    [| discriminate].
  cbn [rbind] in Hv.
  destruct (encodeParameters_address_bytes32 factory salt) as [e2 |];
    [| discriminate].
  cbn [rbind] in Hv.
  destruct codeHash as [| c codeHash].
  - injection Hv as <-. left. auto.
  - cbn [JS.truthy negb] in Hv.
    destruct (soliditySha3 _) as [[digest |] |] eqn:Hsha in Hv;
      cbn [rbind] in Hv; try discriminate.
    destruct (JS.truthy (JS.substr 26 digest)) eqn:Htail.
    + injection Hv as <-. right. right.
      exists (JS.substr 2 (JS.split_join zeros24 e2)), digest.
      split; [exact Hsha |]. split; [reflexivity |]. split; [| reflexivity].
      apply truthy_length in Htail. rewrite substr_length in Htail. lia.
    + injection Hv as <-. right. left. auto.
Qed.

(** X9. [getPair] never throws and returns one of three things:
    [undefined], which happens only when the init-code hash is empty;
    [null]; or [0x] followed by what comes after the first 26 characters of
    the digest of [0xff], the encoded factory and salt, and the init-code
    hash, which is never empty.  With an empty init-code hash no address
    is returned; and where every digest has 66 characters, a returned
    address has 42. *)
Theorem getPair_result (tokenA tokenB factory codeHash : string) :
  (getPair tokenA tokenB factory codeHash = JS.Undefined \/
   getPair tokenA tokenB factory codeHash = JS.Null \/
   exists tail digest,
     soliditySha3 [("0xff" ++ tail)%string; codeHash] = Ok (Some digest) /\
     getPair tokenA tokenB factory codeHash =
       JS.Str ("0x" ++ JS.substr 26 digest) /\
     (26 < String.length digest)%nat) /\
  (getPair tokenA tokenB factory codeHash = JS.Undefined ->
   codeHash = EmptyString) /\
  (codeHash = EmptyString ->
   forall pair, getPair tokenA tokenB factory codeHash <> JS.Str pair) /\
  ((forall args digest,
       soliditySha3 args = Ok (Some digest) ->
       String.length digest = 66%nat) ->
   forall pair,
     getPair tokenA tokenB factory codeHash = JS.Str pair ->
     String.length pair = 42%nat).
Proof.
  unfold getPair.
  destruct (if JS.lt tokenA tokenB then (tokenA, tokenB) else (tokenB, tokenA))
    as [token0 token1].
  destruct (getPair_try token0 token1 factory codeHash) as [v | msg] eqn:Htry.
  - destruct (getPair_try_result _ _ _ _ _ Htry)
      as [[-> ->] | [[-> Hc] | (tail & digest & Hsha & -> & Hlen & Hc)]].
    + split; [left; reflexivity |]. split; [reflexivity |].
      split; intros; discriminate.
    + split; [right; left; reflexivity |]. split; [discriminate |].
      split; intros; discriminate.
    + split; [right; right; exists tail, digest; auto |].
      split; [discriminate |]. split.
      * intros ->. discriminate.
      * intros Hsize pair Hpair.
        replace pair with ("0x" ++ JS.substr 26 digest)%string by congruence.
        rewrite (length_append "0x"), substr_length, (Hsize _ _ Hsha).
        reflexivity.
  - split; [right; left; reflexivity |]. split; [discriminate |].
    split; intros; discriminate.
Qed.

End PairResult.

Section ZeroRuns.

Import Utils Spec.

Lemma startsWith_zeros n : forall x rest,
  (String.length x <= n)%nat -> ends_nonzero x = true ->
  JS.startsWith (JS.repeat_char "0" n) (x ++ rest)%string = false.
Proof.
  induction n as [| n IH]; intros x rest Hlen Hend.
  - destruct x; [discriminate | simpl in Hlen; lia].
  - destruct x as [| c x]; [discriminate |].
    rewrite append_cons. cbn [JS.repeat_char JS.startsWith].
    destruct x as [| d x].
    + cbn [ends_nonzero] in Hend.
      rewrite Ascii.eqb_sym. apply negb_true_iff in Hend. rewrite Hend.
      reflexivity.
    + rewrite IH; [apply andb_false_r | simpl in Hlen |- *; lia | exact Hend].
Qed.

Lemma remove_kept x : forall rest,
  (String.length x <= 24)%nat -> ends_nonzero x = true ->
  JS.remove_from zeros24 0 (x ++ rest)%string =
  (x ++ JS.remove_from zeros24 0 rest)%string.
Proof.
  induction x as [| c x IH]; intros rest Hlen Hend; [discriminate |].
  pose proof (startsWith_zeros 24 (String c x) rest Hlen Hend) as Hstart.
  rewrite !append_cons in *. cbn [JS.remove_from].
  unfold zeros24 at 1. rewrite Hstart. f_equal.
  destruct x as [| d x]; [reflexivity |].
  apply IH; [simpl in Hlen |- *; lia | exact Hend].
Qed.

Lemma append_assoc a b c : ((a ++ b) ++ c)%string = (a ++ b ++ c)%string.
Proof.
  induction a as [| x a IH]; [reflexivity |].
  rewrite !append_cons, IH. reflexivity.
Qed.

Lemma remove_run rest :
  JS.remove_from zeros24 0 (zeros24 ++ rest)%string =
  JS.remove_from zeros24 0 rest.
Proof. reflexivity. Qed.

Lemma remove_0x rest :
  JS.remove_from zeros24 0 ("0x" ++ rest)%string =
  ("0x" ++ JS.remove_from zeros24 0 rest)%string.
Proof. reflexivity. Qed.

Lemma ends_nonzero_append a : forall x,
  x <> EmptyString -> ends_nonzero (a ++ x)%string = ends_nonzero x.
Proof.
  induction a as [| c a IH]; intros x Hx; [reflexivity |].
  rewrite append_cons. cbn [ends_nonzero].
  destruct (a ++ x)%string eqn:Hax.
  - destruct a; [rewrite append_empty in Hax; congruence | discriminate].
  - rewrite <- Hax. apply IH. exact Hx.
Qed.

(** X10. The runs of 24 zeros are removed from the encoded token pair
    wherever they stand, also inside an address.  So with the standard
    ABI encoding, a token whose address is 24 zeros followed by 16 digits
    [x] (the last one not zero) and the token whose address is [x]
    followed by 24 zeros are two different tokens which, paired with the
    same larger token, get the same pair address. *)
Theorem getPair_zero_run_collision `{Web3}
  (x tokenB digitsB factory codeHash : string) :
  String.length x = 16%nat ->
  ends_nonzero x = true ->
  let low := ("0x" ++ zeros24 ++ x)%string in
  let high := ("0x" ++ x ++ zeros24)%string in
  JS.lt low tokenB = true ->
  JS.lt high tokenB = true ->
  encodeParameters_address_address low tokenB =
    Ok ("0x" ++ zeros24 ++ (zeros24 ++ x) ++ zeros24 ++ digitsB)%string ->
  encodeParameters_address_address high tokenB =
    Ok ("0x" ++ zeros24 ++ (x ++ zeros24) ++ zeros24 ++ digitsB)%string ->
  low <> high /\
  getPair low tokenB factory codeHash = getPair high tokenB factory codeHash.
Proof.
  intros Hlen Hend low high Hlow Hhigh Elow Ehigh. split.
  - intros Heq. apply (f_equal ends_nonzero) in Heq.
    unfold low, high in Heq.
    assert (Hx : x <> EmptyString) by (intros ->; discriminate).
    assert (Hzx : (zeros24 ++ x)%string <> EmptyString) by discriminate.
    assert (Hxz : (x ++ zeros24)%string <> EmptyString)
      by (destruct x; [congruence | discriminate]).
    rewrite (ends_nonzero_append "0x" _ Hzx) in Heq.
    rewrite (ends_nonzero_append zeros24 _ Hx) in Heq.
    rewrite (ends_nonzero_append "0x" _ Hxz) in Heq.
    rewrite (ends_nonzero_append x zeros24) in Heq by discriminate.
    rewrite Hend in Heq. discriminate.
  - unfold getPair. rewrite Hlow, Hhigh. unfold getPair_try.
    rewrite Elow, Ehigh. cbn [rbind]. unfold JS.split_join.
    assert (Hsame :
      JS.remove_from zeros24 0
        ("0x" ++ zeros24 ++ (zeros24 ++ x) ++ zeros24 ++ digitsB)%string =
      JS.remove_from zeros24 0
        ("0x" ++ zeros24 ++ (x ++ zeros24) ++ zeros24 ++ digitsB)%string).
    { rewrite !remove_0x. f_equal. rewrite !append_assoc.
      transitivity (x ++ JS.remove_from zeros24 0 digitsB)%string.
      - rewrite !remove_run, remove_kept by (try exact Hend; lia).
        rewrite remove_run. reflexivity.
      - rewrite remove_run, remove_kept by (try exact Hend; lia).
        rewrite !remove_run. reflexivity. }
    rewrite Hsame. reflexivity.
Qed.

End ZeroRuns.

Lemma getPair_zero_run_collision_witness :
  let x := "1111111111111111" in
  let tokenB := "0x2222222222222222222222222222222222222222" in
  ("0x" ++ Utils.zeros24 ++ x)%string <> ("0x" ++ x ++ Utils.zeros24)%string /\
  @Utils.getPair (@Web3Reference.instance keccak_hasher)
    ("0x" ++ Utils.zeros24 ++ x) tokenB Fixture.factory Fixture.initCodeHash =
  @Utils.getPair (@Web3Reference.instance keccak_hasher)
    ("0x" ++ x ++ Utils.zeros24) tokenB Fixture.factory Fixture.initCodeHash.
Proof.
  apply (@getPair_zero_run_collision (@Web3Reference.instance keccak_hasher)
           "1111111111111111" "0x2222222222222222222222222222222222222222"
           "2222222222222222222222222222222222222222"
           Fixture.factory Fixture.initCodeHash);
    vm_compute; reflexivity.
Defined.

Example getPair_zero_run_address :
  exists pair,
    @Utils.getPair (@Web3Reference.instance keccak_hasher)
      "0x0000000000000000000000001111111111111111"
      "0x2222222222222222222222222222222222222222"
      Fixture.factory Fixture.initCodeHash = JS.Str pair /\
    String.length pair = 42%nat.
Proof. eexists. split; vm_compute; reflexivity. Qed.

Section AccessListShape.

Import Utils Spec Ethers.
Context `{Hasher} `{Web3} `{Constants}.

Ltac bind_ok H :=
  match type of H with
  | rbind ?r _ = Ok _ =>
      let E := fresh "E" in
      destruct r eqn:E; cbn [rbind] in H; [| discriminate H]
  end.

Ltac bind_throw :=
  match goal with
  | |- exists msg, rbind ?r _ = Throw msg =>
      destruct r; cbn [rbind]; [| eexists; reflexivity]
  end.

Lemma solidityKeccak256_absent (v w : JS.value) :
  (forall s, v <> JS.Str s) ->
  solidityKeccak256 [v; w] = Throw "invalid BigNumber value".
Proof.
  intros Hv. unfold solidityKeccak256. cbn [pack_uints]. unfold pack_uint.
  destruct v as [| | s]; try reflexivity. destruct (Hv s). reflexivity.
Qed.

(** X11. Without a pair address, that is when [getPair] returns
    [undefined] or [null], [generateAccessList] returns no list: the pair
    address is packed as a [uint] for the keys of the token entries, and
    that throws. *)
Theorem generateAccessList_needs_pair (m : CodeHashMap) (t : TradeAddresses) :
  (forall pair,
      getPair (address1 t) (address2 t) (factoryAddress t)
        (codeHash ammAddresses) <> JS.Str pair) ->
  exists msg, generateAccessList m t = (Throw msg, m).
Proof.
  intros Hpair.
  assert (Hthrow : exists msg, accessList_of m t = Throw msg).
  { unfold accessList_of. cbv zeta.
    do 6 bind_throw.
    destruct (solidityKeccak256 [JS.Str (routerAddress t); JS.Str "0x3"]);
      cbn [rbind]; [| eexists; reflexivity].
    rewrite (solidityKeccak256_absent _ (JS.Str "0x3") Hpair).
    cbn [rbind]. eexists. reflexivity. }
  destruct Hthrow as [msg Hmsg]. exists msg.
  unfold generateAccessList. rewrite Hmsg. reflexivity.
Qed.

(** X12. A list that [generateAccessList] returns has this shape: the
    pair entry has nine fixed slots, the balance keys of the sender and of
    the zero address and the code hash of the pair contract; the two token
    entries have the same five keys, then what the code-hash map holds for
    the token ([undefined] for a token that is not in the map); the
    factory entry has slot 3, three keys and the code hash of the factory
    contract.  The third key of a token entry is the hash of the router
    address and of the sender's balance key. *)
Theorem generateAccessList_shape (m : CodeHashMap) (t : TradeAddresses)
  (accessList : list AccessListEntry) :
  fst (generateAccessList m t) = Ok accessList ->
  exists senderBalanceKey pairBalanceKey tokenKeys allowance k01 k10 kAll,
    accessList =
      [ (getPair (address1 t) (address2 t) (factoryAddress t)
           (codeHash ammAddresses),
         map slot_word [0; 3; 5; 6; 7; 8; 9; 10; 12]%N ++
         [JS.Str senderBalanceKey; JS.Str pairBalanceKey;
          JS.Str pairCodeHash]);
        (JS.Str (address1 t), tokenKeys ++ [map_get m (address1 t)]);
        (JS.Str (address2 t), tokenKeys ++ [map_get m (address2 t)]);
        (JS.Str (factoryAddress t),
         [slot_word 3; JS.Str k01; JS.Str k10; JS.Str kAll;
          JS.Str factoryCodeHash]) ] /\
    List.length tokenKeys = 5%nat /\
    nth_error tokenKeys 2 = Some (JS.Str allowance) /\
    solidityKeccak256 [JS.Str (routerAddress t); JS.Str senderBalanceKey] =
      Ok allowance /\
    getNestedStorageKey (address1 t) (address2 t) "0x2" = Ok k01 /\
    getNestedStorageKey (address2 t) (address1 t) "0x2" = Ok k10 /\
    getArrayItemKey 1 "0x3" = Ok kAll /\
    (m !! address1 t = None ->
     nth_error accessList 1 =
       Some (JS.Str (address1 t), tokenKeys ++ [JS.Undefined])).
Proof.
  unfold generateAccessList. cbn [fst].
  unfold accessList_of. cbv zeta. intros Hal.
  do 6 bind_ok Hal.
  destruct (solidityKeccak256 [JS.Str (routerAddress t); JS.Str "0x3"])
    as [k1 |] eqn:K1; cbn [rbind] in Hal; [| discriminate].
  destruct (solidityKeccak256 [_; JS.Str "0x3"])
    as [k2 |] eqn:K2 in Hal; cbn [rbind] in Hal; [| discriminate].
  destruct (solidityKeccak256 [JS.Str (from t); JS.Str "0x0"])
    as [k3 |] eqn:K3; cbn [rbind] in Hal; [| discriminate].
  destruct (solidityKeccak256 [_; JS.Str "0x0"])
    as [k4 |] eqn:K4 in Hal; cbn [rbind] in Hal; [| discriminate].
  injection Hal as <-.
  match goal with
  | E : solidityKeccak256 [JS.Str (from t); JS.Str "0x1"] = Ok ?a,
    F : solidityKeccak256 [JS.Str (routerAddress t); JS.Str ?a] = Ok ?b,
    G1 : getNestedStorageKey (address1 t) _ _ = Ok ?c,
    G2 : getNestedStorageKey (address2 t) _ _ = Ok ?d,
    G3 : getArrayItemKey _ _ = Ok ?e,
    Z : solidityKeccak256 [JS.Str ("0x" ++ _)%string; _] = Ok ?z |- _ =>
      exists a, z, [JS.Str k1; JS.Str k2; JS.Str b; JS.Str k3; JS.Str k4],
             b, c, d, e
  end.
  repeat split; try assumption; try reflexivity.
  intros Hnone. cbn [nth_error]. unfold map_get. rewrite Hnone. reflexivity.
Qed.

End AccessListShape.

Lemma generateAccessList_needs_pair_witness :
  exists msg,
    @Utils.generateAccessList keccak_hasher
      (@Web3Reference.instance keccak_hasher) Fixture.constants
      (@Utils.codeHashMap Fixture.constants)
      {| Utils.routerAddress := Fixture.router;
         Utils.factoryAddress := Fixture.factory;
         Utils.address1 := "0x1";
         Utils.address2 := Fixture.DAI;
         Utils.from := Fixture.sender |} =
    (Throw msg, @Utils.codeHashMap Fixture.constants).
Proof.
  apply (@generateAccessList_needs_pair keccak_hasher
           (@Web3Reference.instance keccak_hasher) Fixture.constants).
  intros pair. vm_compute. discriminate.
Defined.

Lemma generateAccessList_shape_witness :
  exists accessList tokenKeys,
    fst (@Utils.generateAccessList keccak_hasher
           (@Web3Reference.instance keccak_hasher) Fixture.constants
           (@Utils.codeHashMap Fixture.constants) Fixture.swapAddresses) =
      Ok accessList /\
    nth_error accessList 1 =
      Some (JS.Str Fixture.WETH,
            tokenKeys ++
            [JS.Str "0xd0a06b12ac47863b5c7be4185c2deaad1c61557033f56c7d4ea74429cbb25e23"]) /\
    nth_error accessList 2 =
      Some (JS.Str Fixture.DAI,
            tokenKeys ++
            [JS.Str "0x4e36f96ee1667a663dfaac57c4d185a0e369a3a217e0079d49620f34f85d1ac7"]).
Proof.
  eexists.
  assert (Hal : fst (@Utils.generateAccessList keccak_hasher
           (@Web3Reference.instance keccak_hasher) Fixture.constants
           (@Utils.codeHashMap Fixture.constants) Fixture.swapAddresses) =
      Ok ?[al]) by (vm_compute; reflexivity).
  destruct (@generateAccessList_shape keccak_hasher
              (@Web3Reference.instance keccak_hasher) Fixture.constants
              _ _ _ Hal)
    as (sk & pk & tokenKeys & allowance & k01 & k10 & kAll & Heq & _).
  exists tokenKeys. split; [exact Hal |].
  rewrite Heq. split; reflexivity.
Defined.

Section Hook.

Import Utils SwapCallback Spec.
Context `{Hasher} `{Web3} `{Constants} `{Sdk} `{Chain}.

(** X13. Whenever the call of [useSwapCallArguments] at the top of the
    hook returns, [useSwapCallback] never answers [LOADING]: when no
    recipient name is given the recipient is the account, which the first
    test has found to be there.  The callback is there exactly in state
    [VALID], an error message exactly in state [INVALID]; and in state
    [INVALID] the list of swap calls is empty. *)
Theorem useSwapCallback_states (m : CodeHashMap) (h : HookState)
  (swapCalls : list SwapCall) (trade : option Trade)
  (allowedSlippage : option JS.number)
  (recipientAddressOrName : option string) :
  useSwapCallArguments h trade allowedSlippage recipientAddressOrName =
    Ok swapCalls ->
  let r := useSwapCallback m h swapCalls trade recipientAddressOrName in
  state r <> LOADING /\
  (state r = VALID <-> callback r <> None) /\
  (state r = INVALID <-> error r <> None) /\
  (state r = INVALID -> swapCalls = []).
Proof.
  intros Hcalls r.
  assert (Hempty :
    trade = None \/
    present (the_recipient h recipientAddressOrName) = None \/
    library h = None \/ present (account h) = None \/
    present_number (chainId h) = None ->
    swapCalls = []).
  { intros Hmissing.
    destruct (useTransactionDeadline h) as [d |] eqn:Hd.
    - destruct (Z_le_gt_dec (Z.abs d) Ethers.MAX_SAFE) as [Hsafe | Hlate].
      + rewrite (useSwapCallArguments_missing h trade _ _ d Hmissing Hd Hsafe)
          in Hcalls.
        congruence.
      + rewrite (useSwapCallArguments_overflow h trade _ _ d Hd) in Hcalls
          by lia.
        discriminate.
    - rewrite (useSwapCallArguments_absent h trade _ _ Hd) in Hcalls.
      congruence. }
  revert Hempty. unfold r, useSwapCallback. clear Hcalls r.
  destruct trade as [t |], (library h) as [lib |],
    (present (account h)) as [acct |] eqn:Hacct,
    (present_number (chainId h)) as [chain |],
    (present (the_recipient h recipientAddressOrName)) as [to |] eqn:Hto;
    cbn; intros Hempty;
    try (repeat split; intros; solve [congruence | apply Hempty; auto]);
    destruct recipientAddressOrName as [name |]; cbn;
    try (repeat split; intros; solve [congruence | apply Hempty; auto]);
    unfold the_recipient in Hto; congruence.
Qed.


End Hook.

Section Candidates.

Import Utils SwapCallback Spec.
Context `{Hasher} `{Constants} `{Sdk}.

(** X17. [useSwapCallArguments] throws for a deadline that is not a safe
    integer, whatever else is there.  Otherwise, with one of its six
    dependencies missing it returns the empty list; with all of them
    there it throws exactly when the router address of the configuration
    is not an address or is the zero address, the allowed slippage is not
    an integer, or the SDK throws on the plain options or, for an
    exact-input trade, on the fee-on-transfer options; and what it
    returns is one or two calls, all on the router address. *)
Theorem useSwapCallArguments_throws (h : HookState) (trade : option Trade)
  (allowedSlippage : option JS.number)
  (recipientAddressOrName : option string) :
  let calls :=
    useSwapCallArguments h trade allowedSlippage recipientAddressOrName in
  let slippage :=
    match allowedSlippage with
    | Some x => x
    | None => JS.number_of_Z INITIAL_ALLOWED_SLIPPAGE
    end in
  (forall d, useTransactionDeadline h = Some d ->
             Ethers.MAX_SAFE < Z.abs d -> calls = Throw "overflow") /\
  ((forall d, useTransactionDeadline h = Some d ->
              Z.abs d <= Ethers.MAX_SAFE) ->
   trade = None \/
   present (the_recipient h recipientAddressOrName) = None \/
   library h = None \/ present (account h) = None \/
   present_number (chainId h) = None \/ useTransactionDeadline h = None ->
   calls = Ok []) /\
  (forall t to lib acct chain d,
      trade = Some t ->
      present (the_recipient h recipientAddressOrName) = Some to ->
      library h = Some lib ->
      present (account h) = Some acct ->
      present_number (chainId h) = Some chain ->
      useTransactionDeadline h = Some d ->
      Z.abs d <= Ethers.MAX_SAFE ->
      let options bips fee :=
        {| feeOnTransfer := fee;
           allowedSlippage :=
             {| numerator := bips; denominator := BIPS_BASE |};
           recipient := to;
           deadline := d |} in
      (is_ok calls = false <->
       isAddress ROUTER_ADDRESS = None \/ ROUTER_ADDRESS = AddressZero \/
       JS.integer_value slippage = None \/
       exists bips,
         JS.integer_value slippage = Some bips /\
         (is_ok (swapCallParameters t (options bips false)) = false \/
          (tradeType t = EXACT_INPUT /\
           is_ok (swapCallParameters t (options bips true)) = false))) /\
      (forall l, calls = Ok l ->
                 (1 <= List.length l <= 2)%nat /\
                 Forall (fun c => contract_address (contract c) =
                                  ROUTER_ADDRESS) l)).
Proof.
  cbv zeta. split; [| split].
  - intros d Hd Hlate. apply (useSwapCallArguments_overflow h _ _ _ d Hd Hlate).
  - intros Hsafe Hmissing.
    destruct (useTransactionDeadline h) as [d |] eqn:Hd.
    + apply (useSwapCallArguments_missing h trade _ _ d);
        [| exact Hd | apply Hsafe; reflexivity].
      destruct Hmissing as [? | [? | [? | [? | [? | ?]]]]];
        [auto | auto | auto | auto | auto | discriminate].
    + apply useSwapCallArguments_absent. exact Hd.
  - intros t to lib acct chain d -> Hto Hlib Hacct Hchain Hd Hsafe.
    unfold useSwapCallArguments. rewrite Hto, Hlib, Hacct, Hchain, Hd.
    unfold getRouterContract, getContract, Ethers.toNumber, JSBI_BigInt,
      options_of.
    replace (Z.abs d <=? Ethers.MAX_SAFE) with true by lia. cbn [rbind].
    destruct (isAddress ROUTER_ADDRESS) as [a |];
      [| cbn [rbind is_ok]; split;
         [split; auto | intros l Hl; discriminate]].
    destruct (String.eqb ROUTER_ADDRESS AddressZero) eqn:Hz;
      [apply String.eqb_eq in Hz; cbn [rbind is_ok]; split;
       [split; auto | intros l Hl; discriminate] |].
    apply String.eqb_neq in Hz. cbn [rbind].
    destruct (JS.integer_value _) as [bips |] eqn:Hbips;
      [| cbn [rbind is_ok]; split;
         [split; auto | intros l Hl; discriminate]].
    cbn [rbind].
    destruct (swapCallParameters t _) as [plain | msg] eqn:Hplain.
    + cbn [rbind].
      destruct (tradeType t) eqn:Htype.
      * destruct (swapCallParameters t _) as [fee | msg] eqn:Hfee
          in |- *; cbn [rbind is_ok map app].
        -- split.
           ++ split; [discriminate |].
              intros [? | [? | [? | (b & Hb & [Hp | [_ Hf]])]]];
                try congruence.
              ** injection Hb as <-. rewrite Hplain in Hp. discriminate.
              ** injection Hb as <-. rewrite Hfee in Hf. discriminate.
           ++ intros l Hl. injection Hl as <-. cbn.
              split; [lia | repeat constructor].
        -- split.
           ++ split; [| reflexivity]. intros _.
              right. right. right. exists bips. split; [reflexivity |].
              right. split; [reflexivity |]. rewrite Hfee. reflexivity.
           ++ intros l Hl. discriminate.
      * cbn [rbind is_ok map]. split.
        -- split; [discriminate |].
           intros [? | [? | [? | (b & Hb & [Hp | [Hx _]])]]];
             try congruence.
           injection Hb as <-. rewrite Hplain in Hp. discriminate.
        -- intros l Hl. injection Hl as <-. cbn.
           split; [lia | repeat constructor].
    + cbn [rbind is_ok]. split.
      * split; [| reflexivity]. intros _.
        right. right. right. exists bips. split; [reflexivity |].
        left. rewrite Hplain. reflexivity.
      * intros l Hl. discriminate.
Qed.

End Candidates.

Section Composition.

Import Utils SwapCallback Spec.
Context `{Chain}.

Lemma estimate_call call :
  match estimate call with
  | SuccessfulCall c g =>
      c = call /\
      estimateGas call (callOptions (value (parameters call))) = Fulfilled g
  | FailedCall c msg =>
      c = call /\ msg <> noErrorMessage /\
      exists e,
        estimateGas call (callOptions (value (parameters call))) = Rejected e
  end.
Proof.
  unfold estimate.
  destruct (estimateGas call _) as [g | e]; [auto |].
  destruct (callStatic call _) as [r | callError].
  - split; [reflexivity |]. split; [discriminate | eauto].
  - split; [reflexivity |]. split; [| eauto].
    unfold errorMessage.
    match goal with |- (if ?b then _ else _) <> _ => destruct b end;
      [discriminate |].
    unfold defaultMessage, noErrorMessage. cbv [String.append]. discriminate.
Qed.

Lemma last_in {A} (l : list A) x : last l = Some x -> In x l.
Proof.
  intros Hl. apply last_Some in Hl as [l' ->].
  apply in_or_app. right. left. reflexivity.
Qed.

Lemma all_success_rule l el :
  forallb has_gasEstimate (l ++ [el]) = true -> rule (l ++ [el]) (List.length l).
Proof.
  intros Hall. rewrite forallb_app in Hall.
  apply andb_true_iff in Hall as [_ Hel]. cbn in Hel.
  apply andb_true_iff in Hel as [Hel _].
  apply has_gasEstimate_spec in Hel as (c & g & ->).
  split.
  - exists c, g. rewrite nth_error_app2 by lia.
    replace (List.length l - List.length l)%nat with 0%nat by lia. reflexivity.
  - left. rewrite length_app. simpl. lia.
Qed.

Lemma filter_error_nil l :
  List.filter has_error l = [] -> forallb has_gasEstimate l = true.
Proof.
  induction l as [| el l IH]; [reflexivity |].
  cbn [List.filter forallb]. destruct el; cbn; [exact IH | discriminate].
Qed.

(** X14. What [onSwap] selects is one of the swap calls, together with
    the gas estimate of that very call.  When it finds nothing to select,
    the error is the diagnosis of a swap call whose gas estimation was
    rejected; the message that none of the calls threw an error is thrown
    exactly when the list of swap calls is empty. *)
Theorem select_estimatedCalls (swapCalls : list SwapCall) :
  (forall call gasEstimate,
      select (estimatedCalls swapCalls) = Ok (call, gasEstimate) ->
      In call swapCalls /\
      estimateGas call (callOptions (value (parameters call))) =
        Fulfilled gasEstimate) /\
  (forall msg,
      select (estimatedCalls swapCalls) = Throw msg ->
      swapCalls <> [] ->
      exists call e,
        In call swapCalls /\
        estimateGas call (callOptions (value (parameters call))) =
          Rejected e /\
        estimate call = FailedCall call msg) /\
  (select (estimatedCalls swapCalls) = Throw noErrorMessage <->
   swapCalls = []).
Proof.
  assert (Hin : forall el, In el (estimatedCalls swapCalls) ->
            exists call, In call swapCalls /\ estimate call = el).
  { intros el Hel. unfold estimatedCalls in Hel.
    apply in_map_iff in Hel as (call & <- & Hcall). eauto. }
  assert (Hfailed : forall msg,
            select (estimatedCalls swapCalls) = Throw msg ->
            swapCalls <> [] ->
            exists call e,
              In call swapCalls /\
              estimateGas call (callOptions (value (parameters call))) =
                Rejected e /\
              estimate call = FailedCall call msg).
  { intros msg Hsel Hne. unfold select in Hsel.
    pose proof (successfulEstimation_spec (estimatedCalls swapCalls)) as Hspec.
    destruct (successfulEstimation (estimatedCalls swapCalls))
      as [[c g | c e] |] eqn:Hfound; [discriminate | |].
    - destruct Hspec as (i & Hn & [(c' & g' & Hc') _] & _). congruence.
    - destruct (last (List.filter has_error (estimatedCalls swapCalls)))
        as [[c g | c e] |] eqn:Hlast.
      + apply last_in, filter_In in Hlast as [_ Hlast]. discriminate.
      + injection Hsel as <-.
        apply last_in, filter_In in Hlast as [Hlast _].
        destruct (Hin _ Hlast) as (call & Hcall & Hest).
        pose proof (estimate_call call) as Hcase. rewrite Hest in Hcase.
        destruct Hcase as (-> & _ & e' & He').
        exists call, e'. auto.
      + exfalso. apply last_None in Hlast. apply filter_error_nil in Hlast.
        destruct (exists_last Hne) as (front & final & Hl).
        unfold estimatedCalls in *. rewrite Hl, map_app in Hlast, Hspec.
        cbn [map] in Hlast, Hspec.
        apply (Hspec (List.length (map estimate front))).
        apply all_success_rule. exact Hlast. }
  split; [| split].
  - intros call g Hsel. unfold select in Hsel.
    pose proof (successfulEstimation_spec (estimatedCalls swapCalls)) as Hspec.
    destruct (successfulEstimation (estimatedCalls swapCalls))
      as [[c g' | c e] |].
    + injection Hsel as -> ->.
      destruct Hspec as (i & Hn & _). apply nth_error_In in Hn.
      destruct (Hin _ Hn) as (call' & Hcall & Hest).
      pose proof (estimate_call call') as Hcase. rewrite Hest in Hcase.
      destruct Hcase as [-> Hgas]. auto.
    + destruct (last _) as [[] |]; discriminate.
    + destruct (last _) as [[] |]; discriminate.
  - exact Hfailed.
  - split.
    + intros Hsel. destruct swapCalls as [| c l]; [reflexivity |].
      destruct (Hfailed _ Hsel ltac:(discriminate)) as (call & e & _ & _ & Hest).
      pose proof (estimate_call call) as Hcase. rewrite Hest in Hcase.
      destruct Hcase as (_ & Hmsg & _). congruence.
    + intros ->. reflexivity.
Qed.

End Composition.

Section Outcomes.

Import Utils SwapCallback Spec.
Context `{Hasher} `{Web3} `{Constants} `{Chain}.

(** X16. Once a call is selected, [onSwap] rejects only if
    [populateTransaction] rejects: with [Transaction rejected.] for the
    code 4001 and with [Swap failed: ] and the message otherwise.  When
    the transaction is populated [onSwap] always resolves: to [undefined]
    without a wallet; to the hash of the transaction sent when the test
    mode goes through; and to [response.hash] as [populateTransaction]
    left it when anything in the test mode throws, also when the user
    refuses to sign. *)
Theorem onSwap_outcomes (m : CodeHashMap) (account : string)
  (swapCalls : list SwapCall) (call : SwapCall) (gasEstimate : Z) :
  select (estimatedCalls swapCalls) = Ok (call, gasEstimate) ->
  let o := overrides gasEstimate (value (parameters call)) account in
  (forall e,
      populateTransaction call o = Rejected e ->
      (code e = Some 4001 ->
       onSwap m account swapCalls = Throw "Transaction rejected.") /\
      (code e <> Some 4001 ->
       onSwap m account swapCalls =
       Throw ("Swap failed: " ++ message e)%string)) /\
  (forall response,
      populateTransaction call o = Fulfilled response ->
      (ethereum = false -> onSwap m account swapCalls = Ok JS.Undefined) /\
      (ethereum = true ->
       (forall msg,
           testModeTransaction m (args (parameters call)) response =
             Throw msg ->
           onSwap m account swapCalls = Ok (response_hash response)) /\
       (forall tx e,
           testModeTransaction m (args (parameters call)) response = Ok tx ->
           signAndSend tx = Rejected e ->
           onSwap m account swapCalls = Ok (response_hash response)) /\
       (forall tx hash,
           testModeTransaction m (args (parameters call)) response = Ok tx ->
           signAndSend tx = Fulfilled hash ->
           onSwap m account swapCalls = Ok (JS.Str hash)))).
Proof.
  intros Hsel o. unfold onSwap, submit. rewrite Hsel. cbn [rbind]. fold o.
  split.
  - intros e ->. split.
    + intros ->. reflexivity.
    + intros Hcode. destruct (code e) as [c |]; [| reflexivity].
      destruct (c =? 4001) eqn:Hc; [| reflexivity].
      apply Z.eqb_eq in Hc. congruence.
  - intros response ->. cbn [rbind sent populated]. split.
    + intros ->. reflexivity.
    + intros ->. unfold testMode. repeat split.
      * intros msg ->. reflexivity.
      * intros tx e -> Hsend. cbn [rbind]. rewrite Hsend. reflexivity.
      * intros tx hash -> Hsend. cbn [rbind]. rewrite Hsend. reflexivity.
Qed.

End Outcomes.

Lemma useSwapCallback_states_witness :
  let r :=
    @SwapCallback.useSwapCallback keccak_hasher
      (@Web3Reference.instance keccak_hasher) Fixture.constants Fixture.sdk
      (Fixture.quietChain 21000) (@Utils.codeHashMap Fixture.constants)
      Fixture.hooks [] None None in
  SwapCallback.state r <> SwapCallback.LOADING /\
  (SwapCallback.state r = SwapCallback.VALID <->
   SwapCallback.callback r <> None) /\
  (SwapCallback.state r = SwapCallback.INVALID <->
   SwapCallback.error r <> None) /\
  (SwapCallback.state r = SwapCallback.INVALID -> @nil SwapCall = []).
Proof.
  exact (@useSwapCallback_states keccak_hasher
           (@Web3Reference.instance keccak_hasher) Fixture.constants
           Fixture.sdk (Fixture.quietChain 21000)
           (@Utils.codeHashMap Fixture.constants) Fixture.hooks []
           None None None eq_refl).
Defined.


Lemma onSwap_outcomes_witness :
  @SwapCallback.onSwap keccak_hasher (@Web3Reference.instance keccak_hasher)
    Fixture.constants (Fixture.refusingChain 21000)
    (@Utils.codeHashMap Fixture.constants) Fixture.sender
    [Fixture.plainCall; Fixture.feeCall] = Ok JS.Undefined.
Proof.
  refine (proj1 (proj2 (proj2 (proj2 (@onSwap_outcomes keccak_hasher
            (@Web3Reference.instance keccak_hasher) Fixture.constants
            (Fixture.refusingChain 21000) (@Utils.codeHashMap Fixture.constants)
            Fixture.sender [Fixture.plainCall; Fixture.feeCall]
            Fixture.plainCall 21000 eq_refl) _ eq_refl) eq_refl)) _ _ _ eq_refl).
  vm_compute. reflexivity.
Defined.

(** ** The test mode and the arguments of the call *)

Section TestModeArguments.

Import Utils SwapCallback Spec Ethers.
Context `{Hasher} `{Web3} `{Constants} `{Chain}.

Lemma getNestedStorageKey_letter (key1 slot : string) :
  exists msg, getNestedStorageKey key1 "x" slot = Throw msg.
Proof.
  unfold getNestedStorageKey.
  destruct (solidityKeccak256 [JS.Str key1; JS.Str slot]) as [first |];
    cbn [rbind]; [| eexists; reflexivity].
  eexists. reflexivity.
Qed.

Lemma accessList_of_letter (m : CodeHashMap) (t : TradeAddresses) :
  address2 t = "x" -> exists msg, accessList_of m t = Throw msg.
Proof.
  intros Hletter. unfold accessList_of. cbv zeta. rewrite Hletter.
  repeat match goal with
         | |- exists msg, rbind (solidityKeccak256 ?l) _ = Throw msg =>
             destruct (solidityKeccak256 l);
             cbn [rbind]; [| eexists; reflexivity]
         end.
  destruct (getNestedStorageKey_letter (address1 t) "0x2") as [msg ->].
  cbn [rbind]. eexists. reflexivity.
Qed.

Lemma testModeTransaction_string (m : CodeHashMap) (first : Arg)
  (amount : string) (rest : list Arg) (response : PopulatedTransaction) :
  JS.startsWith "0x" amount = true ->
  exists msg,
    testModeTransaction m (first :: ArgString amount :: rest) response =
    Throw msg.
Proof.
  intros Hamount. unfold testModeTransaction. cbn [nth_error].
  destruct amount as [| c0 amount]; [discriminate Hamount |].
  cbn [JS.startsWith] in Hamount.
  apply andb_true_iff in Hamount as [Hc0 Hamount].
  destruct amount as [| c1 amount]; [discriminate Hamount |].
  apply andb_true_iff in Hamount as [Hc1 _].
  apply Ascii.eqb_eq in Hc0, Hc1. subst c0 c1.
  cbn [index_arg String.get].
  destruct (response_from response) as [| | sender];
    try (eexists; reflexivity).
  unfold generateAccessList. cbn [fst].
  match goal with
  | |- context [accessList_of m ?t] =>
      destruct (accessList_of_letter m t eq_refl) as [msg ->]
  end.
  cbn [rbind]. eexists. reflexivity.
Qed.

(** X19. The test mode reads the two token addresses from [args[1]].  For
    a call whose second argument is not the path but an amount, a string
    that starts with [0x] (as in [swapExactTokensForTokens]), the two
    addresses are the characters [0] and [x]; the access list cannot be
    generated, nothing is signed or sent, and [onSwap] resolves to
    [response.hash] as [populateTransaction] left it. *)
Theorem testMode_amount_for_path (m : CodeHashMap) (account : string)
  (swapCalls : list SwapCall) (call : SwapCall) (gasEstimate : Z)
  (first : Arg) (amount : string) (rest : list Arg)
  (response : PopulatedTransaction) :
  select (estimatedCalls swapCalls) = Ok (call, gasEstimate) ->
  args (parameters call) = first :: ArgString amount :: rest ->
  JS.startsWith "0x" amount = true ->
  populateTransaction call
    (overrides gasEstimate (value (parameters call)) account) =
    Fulfilled response ->
  ethereum = true ->
  (exists msg, testMode m (args (parameters call)) response = Throw msg) /\
  sent_gasLimit (submit m account swapCalls) = None /\
  onSwap m account swapCalls = Ok (response_hash response).
Proof.
  intros Hsel Hargs Hamount Hpop Heth.
  destruct (testModeTransaction_string m first amount rest response Hamount)
    as [msg Hmsg].
  assert (Hmode : testMode m (args (parameters call)) response = Throw msg).
  { unfold testMode. rewrite Hargs, Hmsg. reflexivity. }
  split; [eauto |].
  unfold onSwap, sent_gasLimit, submit.
  rewrite Hsel. cbn [rbind]. rewrite Hpop, Heth. cbn [rbind sent populated].
  rewrite Hmode. split; reflexivity.
Qed.

(** X20. The value option is the same for the estimation and for the
    transaction: [populateTransaction] is given the value exactly when
    [estimateGas] and [callStatic] were given it, that is when the value
    is not empty and not zero; the sender is always the account. *)
Theorem overrides_as_estimated (gasEstimate : Z) (value account : string) :
  override_value (overrides gasEstimate value account) = callOptions value /\
  override_from (overrides gasEstimate value account) = account /\
  (callOptions value = Some value <->
   JS.truthy value = true /\ isZero value = false) /\
  (callOptions value = None <->
   value = EmptyString \/ isZero value = true).
Proof.
  unfold overrides, callOptions. cbn [override_value override_from].
  destruct value as [| c v]; cbn [JS.truthy negb orb andb].
  - repeat split; auto; try discriminate.
    intros [Ht _]. discriminate Ht.
  - destruct (isZero (String c v)); cbn [negb].
    + repeat split; auto; try discriminate.
      intros [_ Hz]. discriminate Hz.
    + repeat split; auto; try discriminate.
      intros [Hv | Hz]; discriminate.
Qed.

End TestModeArguments.

Lemma testMode_amount_for_path_witness :
  @SwapCallback.onSwap keccak_hasher (@Web3Reference.instance keccak_hasher)
    Fixture.constants (Fixture.quietChain 21000)
    (@Utils.codeHashMap Fixture.constants) Fixture.sender
    [Fixture.tokenCall] = Ok JS.Undefined.
Proof.
  refine (proj2 (proj2 (@testMode_amount_for_path keccak_hasher
            (@Web3Reference.instance keccak_hasher) Fixture.constants
            (Fixture.quietChain 21000) (@Utils.codeHashMap Fixture.constants)
            Fixture.sender [Fixture.tokenCall] Fixture.tokenCall 21000
            _ _ _ _ eq_refl eq_refl eq_refl eq_refl eq_refl))).
Defined.
